(** * Voice service: settings normaliser, error translator, bounded dispatcher

    Shallow embedding of [src/config/voiceConfig.js] (class [VoiceConfig])
    and [src/services/voiceProcessor.js] (class [VoiceProcessor]).

    JavaScript objects used as records of named properties are finite maps
    from property names to values; numbers are IEEE 754 binary64 values
    (the [spec_float] of the standard library, which has signed zeros,
    infinities and NaN and computes comparisons without axioms). *)

From Stdlib Require Import ZArith Floats.SpecFloat.
From stdpp Require Import gmap strings list fin_maps.

Local Open Scope list_scope.

(** ** The parts of the JavaScript runtime the code relies on *)

Module JS.

Abbreviation number := spec_float.

Definition NaN : number := S754_nan.
Definition pos_zero : number := S754_zero false.
Definition neg_zero : number := S754_zero true.
Definition pos_infinity : number := S754_infinity false.
Definition neg_infinity : number := S754_infinity true.
(** 1 = 2^52 * 2^-52, 0.5 = 2^52 * 2^-53 (53-bit mantissas). *)
Definition one : number := S754_finite false 4503599627370496 (-52).
Definition half : number := S754_finite false 4503599627370496 (-53).

(** A JavaScript value. Objects (arrays included) are references. *)
Inductive value :=
| VUndefined
| VNull
| VBool (b : bool)
| VNumber (n : number)
| VString (s : string)
| VObject (ref : nat).

(** The coercions whose result is fixed by the language but not by this
    program: numeric reading of a string, of an object (through
    [valueOf]/[toString]), and the global [parseFloat]. *)
Record Runtime := {
  StringToNumber : string -> number;
  ObjectToNumber : nat -> number;
  parseFloat : string -> number
}.

Definition ToNumber (rt : Runtime) (v : value) : number :=
  match v with
  | VUndefined => NaN
  | VNull => pos_zero
  | VBool true => one
  | VBool false => pos_zero
  | VNumber n => n
  | VString s => StringToNumber rt s
  | VObject o => ObjectToNumber rt o
  end.

Definition is_zero (n : number) : bool :=
  match n with S754_zero _ => true | _ => false end.

Definition is_nan (n : number) : bool :=
  match n with S754_nan => true | _ => false end.

Definition ToBoolean (v : value) : bool :=
  match v with
  | VUndefined | VNull => false
  | VBool b => b
  | VNumber n => negb (is_zero n || is_nan n)
  | VString s => negb (String.eqb s "")
  | VObject _ => true
  end.

(** [Boolean(v)] *)
Definition Boolean (v : value) : value := VBool (ToBoolean v).

(** [a || b] on numbers. *)
Definition number_or (a b : number) : number :=
  if ToBoolean (VNumber a) then a else b.

(** One round of [Math.max]: NaN is absorbing (kept as [None] until the
    end), [+0] beats [-0], otherwise the strictly larger value wins. *)
Definition max_step (highest : option number) (n : number) : option number :=
  match highest with
  | None => None
  | Some h =>
      if is_nan n then None
      else match n, h with
           | S754_zero false, S754_zero true => Some pos_zero
           | _, _ => if SFltb h n then Some n else Some h
           end
  end.

Definition Math_max (args : list number) : number :=
  match fold_left max_step args (Some neg_infinity) with
  | Some h => h
  | None => NaN
  end.

Definition min_step (lowest : option number) (n : number) : option number :=
  match lowest with
  | None => None
  | Some l =>
      if is_nan n then None
      else match n, l with
           | S754_zero true, S754_zero false => Some neg_zero
           | _, _ => if SFltb n l then Some n else Some l
           end
  end.

Definition Math_min (args : list number) : number :=
  match fold_left min_step args (Some pos_infinity) with
  | Some l => l
  | None => NaN
  end.

(** Property read [o.k]: [undefined] when the property is absent. *)
Definition get (o : gmap string value) (k : string) : value :=
  match o !! k with Some v => v | None => VUndefined end.

(** Object spread [{ ...a, ...b }]: the properties of [b] win. *)
Definition spread (a b : gmap string value) : gmap string value := b ∪ a.

End JS.

Import JS.

(** ** [VoiceConfig] *)

(** The environment variables read by [initVoiceSettings]; [None] is an
    unset variable. *)
Record ProcessEnv := {
  DEFAULT_STABILITY : option string;
  DEFAULT_SIMILARITY_BOOST : option string;
  DEFAULT_STYLE : option string;
  DEFAULT_SPEAKER_BOOST : option string
}.

(** [parseFloat(process.env.X)]: an unset variable reads as [undefined],
    whose string form is not a number. *)
Definition parseFloat_env (rt : Runtime) (x : option string) : number :=
  match x with
  | Some s => parseFloat rt s
  | None => NaN
  end.

(** [process.env.X === 'true'] *)
Definition env_is_true (x : option string) : bool :=
  match x with
  | Some s => String.eqb s "true"
  | None => false
  end.

(** [initVoiceSettings().default] *)
Definition initVoiceSettings (rt : Runtime) (env : ProcessEnv) : gmap string value :=
  {[ "stability" := VNumber (number_or (parseFloat_env rt (DEFAULT_STABILITY env)) half);
     "similarityBoost" := VNumber (number_or (parseFloat_env rt (DEFAULT_SIMILARITY_BOOST env)) half);
     "style" := VNumber (number_or (parseFloat_env rt (DEFAULT_STYLE env)) pos_zero);
     "speakerBoost" := VBool (env_is_true (DEFAULT_SPEAKER_BOOST env)) ]}.

(** [Math.max(0, Math.min(1, v))] *)
Definition clamp01 (rt : Runtime) (v : value) : value :=
  VNumber (Math_max [pos_zero; Math_min [one; ToNumber rt v]]).

(** [validateVoiceSettings(settings)], with [default] the value of
    [this.voiceSettings.default]. *)
Definition validateVoiceSettings (rt : Runtime) (default settings : gmap string value)
  : gmap string value :=
  let validated := spread default settings in
  let validated := <["stability" := clamp01 rt (get validated "stability")]> validated in
  let validated := <["similarityBoost" := clamp01 rt (get validated "similarityBoost")]> validated in
  let validated := <["style" := clamp01 rt (get validated "style")]> validated in
  let validated := <["speakerBoost" := Boolean (get validated "speakerBoost")]> validated in
  validated.

(** The normaliser as the service runs it: defaults from the environment. *)
Definition normalize (rt : Runtime) (env : ProcessEnv) (settings : gmap string value)
  : gmap string value :=
  validateVoiceSettings rt (initVoiceSettings rt env) settings.

(** [process.env] with none of the [DEFAULT_*] variables set. *)
Definition env_unset : ProcessEnv :=
  {| DEFAULT_STABILITY := None;
     DEFAULT_SIMILARITY_BOOST := None;
     DEFAULT_STYLE := None;
     DEFAULT_SPEAKER_BOOST := None |}.

(** Within the bounds declared in [ranges]: [{ min: 0, max: 1 }]. *)
Definition in_range (v : value) : bool :=
  match v with
  | VNumber n => SFleb pos_zero n && SFleb n one
  | _ => false
  end.

(** The four properties the normaliser assigns. *)
Definition normalized_fields : list string :=
  ["stability"; "similarityBoost"; "style"; "speakerBoost"].

(** The binary64 values of the literals [1.5] and [-0.2]. *)
Definition one_and_a_half : number := S754_finite false 6755399441055744 (-52).
Definition minus_point_two : number := S754_finite true 7205759403792794 (-55).

(** A runtime in which no string and no object reads as a number. It is
    only used to evaluate inputs that hold neither. *)
Definition runtime_numeric_only : Runtime :=
  {| StringToNumber := fun _ => NaN;
     ObjectToNumber := fun _ => NaN;
     parseFloat := fun _ => NaN |}.

(** A sample input: stability out of range and a property the normaliser
    does not know. *)
Definition settings_with_extra_field : gmap string value :=
  {[ "stability" := VNumber one_and_a_half; "voiceModel" := VString "v2" ]}.

(** ** [VoiceProcessor]: error translation *)

(** What [handleElevenLabsError] reads of the error it is given:
    [error.response?.status], [error.response?.data?.detail] ([None]
    when [data] or [detail] is absent) and [error.message]. *)
Record ErrorResponse := {
  status : Z;
  detail : option string
}.

Record ApiError := {
  response : option ErrorResponse;
  message : string
}.

(** [a || b] where [a] is [undefined] or a string: the empty string is
    falsy. *)
Definition string_or (a : option string) (b : string) : string :=
  match a with
  | Some s => if String.eqb s "" then b else s
  | None => b
  end.

(** [error.response?.data?.detail || error.message] *)
Definition error_detail (error : ApiError) : string :=
  string_or (response error ≫= detail) (message error).

(** The object literal [errorMap], in source order. *)
Definition errorMap (message : string) : list (Z * string) :=
  [ (401, "Invalid ElevenLabs API key");
    (402, "ElevenLabs quota exceeded");
    (422, "Invalid request: " +:+ message);
    (429, "ElevenLabs rate limit exceeded");
    (500, "ElevenLabs server error") ]%Z.

(** The keys of [errorMap]. *)
Definition mapped_statuses : list Z := [401; 402; 422; 429; 500]%Z.

(** [errorMap[status]]; an absent status ([undefined]) names no entry. *)
Fixpoint errorMap_get (m : list (Z * string)) (status : option Z) : option string :=
  match m, status with
  | (k, v) :: rest, Some s => if (k =? s)%Z then Some v else errorMap_get rest status
  | _, _ => None
  end.

(** [handleElevenLabsError(error)]; the result is the message of the
    [Error] it builds. *)
Definition handleElevenLabsError (error : ApiError) : string :=
  let status := status <$> response error in
  let message := error_detail error in
  string_or (errorMap_get (errorMap message) status)
            ("ElevenLabs API error: " +:+ message).

(** ** [VoiceProcessor]: the request queue *)

(** How a call of [request.execute()] ends. *)
Inductive outcome :=
| Fulfilled (result : value)
| Failed (error : value).

(** A queue entry [{ id, execute, resolve, reject }]. [execute] names the
    caller's function; [resolve] and [reject] are the two settling
    functions of one promise, named by [promise]. *)
Record request := {
  id : string;
  execute : nat;
  promise : nat
}.

(** The fields of a [VoiceProcessor] the queue uses. *)
Record VoiceProcessor := {
  activeRequests : gmap string request;
  requestQueue : list request;
  maxConcurrent : Z
}.

(** The processor together with what the event loop holds for it:
    the activations of [processQueue] suspended at
    [await request.execute()], the delays of the [setTimeout] callbacks
    not yet run, and the number of promises created so far. *)
Record World := {
  vp : VoiceProcessor;
  suspended : list request;
  timers : list Z;
  promises : nat
}.

(** What a step lets the outside see. *)
Inductive action :=
| Accepted (r : request)
| Started (r : request)
| Resolved (p : nat) (result : value)
| Rejected (p : nat) (error : value).

(** [processQueue()] up to its [await]. *)
Definition processQueue (w : World) : World * list action :=
  let this := vp w in
  if (Z.of_nat (size (activeRequests this)) >=? maxConcurrent this)%Z
     || (length (requestQueue this) =? 0)%nat
  then (w, [])
  else
    match requestQueue this with
    | [] => (w, [])
    | request :: rest =>
        ({| vp := {| activeRequests := <[id request := request]> (activeRequests this);
                     requestQueue := rest;
                     maxConcurrent := maxConcurrent this |};
            suspended := suspended w ++ [request];
            timers := timers w;
            promises := promises w |},
         [Started request])
    end.

(** [request.resolve(result)] or [request.reject(error)]. *)
Definition settle (request : request) (o : outcome) : action :=
  match o with
  | Fulfilled result => Resolved (promise request) result
  | Failed error => Rejected (promise request) error
  end.

(** The rest of [processQueue()] once [request.execute()] has ended:
    the [try]/[catch] settles the promise, the [finally] deletes the
    entry and schedules one call of [processQueue] after 100 ms. *)
Definition processQueue_resume (w : World) (request : request) (o : outcome)
  : World * list action :=
  let this := vp w in
  ({| vp := {| activeRequests := delete (id request) (activeRequests this);
               requestQueue := requestQueue this;
               maxConcurrent := maxConcurrent this |};
      suspended := suspended w;
      timers := timers w ++ [100%Z];
      promises := promises w |},
   [settle request o]).

(** [queueRequest(executeFunction)], with [requestId] the string built
    from the clock and the random generator. *)
Definition queueRequest (w : World) (requestId : string) (executeFunction : nat)
  : World * list action :=
  let this := vp w in
  let r := {| id := requestId; execute := executeFunction; promise := promises w |} in
  let '(w', acts) :=
    processQueue
      {| vp := {| activeRequests := activeRequests this;
                  requestQueue := requestQueue this ++ [r];
                  maxConcurrent := maxConcurrent this |};
         suspended := suspended w;
         timers := timers w;
         promises := S (promises w) |} in
  (w', Accepted r :: acts).

(** [getQueueStatus()] *)
Record QueueStatus := {
  qs_activeRequests : nat;
  qs_queuedRequests : nat;
  qs_maxConcurrent : Z
}.

Definition getQueueStatus (this : VoiceProcessor) : QueueStatus :=
  {| qs_activeRequests := size (activeRequests this);
     qs_queuedRequests := length (requestQueue this);
     qs_maxConcurrent := maxConcurrent this |}.

(** What can happen to the processor: a caller enqueues, the call of
    [execute] of the [k]-th suspended activation ends, the oldest timer
    runs. The functions handed to [queueRequest] are [async]: a call of
    [execute] returns a promise, and the [await] resumes [processQueue]
    in a later turn, whether the promise is fulfilled or rejected. *)
Inductive event :=
| Enqueue (requestId : string) (executeFunction : nat)
| ExecuteEnds (k : nat) (o : outcome)
| TimerRuns.

(** One turn of the event loop; [None] when the event cannot happen in
    this state. *)
Definition step (w : World) (e : event) : option (World * list action) :=
  match e with
  | Enqueue requestId executeFunction => Some (queueRequest w requestId executeFunction)
  | ExecuteEnds k o =>
      match suspended w !! k with
      | Some request =>
          Some (processQueue_resume
                  {| vp := vp w; suspended := delete k (suspended w);
                     timers := timers w; promises := promises w |}
                  request o)
      | None => None
      end
  | TimerRuns =>
      match timers w with
      | _ :: rest =>
          Some (processQueue
                  {| vp := vp w; suspended := suspended w;
                     timers := rest; promises := promises w |})
      | [] => None
      end
  end.

(** A sequence of turns, with everything it showed, oldest first. *)
Fixpoint run (w : World) (es : list event) : option (World * list action) :=
  match es with
  | [] => Some (w, [])
  | e :: es' =>
      match step w e with
      | Some (w', acts) =>
          match run w' es' with
          | Some (w'', acts') => Some (w'', acts ++ acts')
          | None => None
          end
      | None => None
      end
  end.

(** [new VoiceProcessor()] with [maxConcurrentRequests = K]. *)
Definition new_VoiceProcessor (K : Z) : World :=
  {| vp := {| activeRequests := ∅; requestQueue := []; maxConcurrent := K |};
     suspended := []; timers := []; promises := 0 |}.

(** The requests a trace accepted, started and the promises it settled. *)
Definition accepted (tr : list action) : list request :=
  omap (fun a => match a with Accepted r => Some r | _ => None end) tr.

Definition started (tr : list action) : list request :=
  omap (fun a => match a with Started r => Some r | _ => None end) tr.

Definition settled (tr : list action) : list nat :=
  omap (fun a => match a with
                 | Resolved p _ | Rejected p _ => Some p
                 | _ => None
                 end) tr.

(** The request ids a sequence of events brings in. *)
Definition ids_of (es : list event) : list string :=
  omap (fun e => match e with Enqueue i _ => Some i | _ => None end) es.

(** ** Predicates on the state of the queue *)

(** The configured bound is [K] and the active set respects it. *)
Definition within_bound (K : Z) (w : World) : Prop :=
  maxConcurrent (vp w) = K /\ (Z.of_nat (size (activeRequests (vp w))) <= K)%Z.

(** The ids of the requests that are suspended or queued. *)
Definition pending_ids (w : World) : list string :=
  id <$> (suspended w ++ requestQueue (vp w)).

(** No two pending requests share an id, and the keys of the active set
    are the ids of the suspended activations. *)
Definition ids_consistent (w : World) : Prop :=
  NoDup (pending_ids w)
  /\ dom (activeRequests (vp w)) = list_to_set (id <$> suspended w).

(** Every key of the active set is the id of a suspended activation. *)
Definition active_are_suspended (w : World) : Prop :=
  forall i, is_Some (activeRequests (vp w) !! i) -> i ∈ id <$> suspended w.

(** A request that waits has something coming that runs [processQueue]
    again: a call of [execute] still to end, or a timer. *)
Definition not_stranded (w : World) : Prop :=
  requestQueue (vp w) ≠ [] -> suspended w ≠ [] \/ timers w ≠ [].

(** ** Sample inputs *)

(** Four submissions against a bound of two, one failure, one success. *)
Definition sample_events : list event :=
  [ Enqueue "req-1" 0; Enqueue "req-2" 1; Enqueue "req-3" 2;
    ExecuteEnds 0 (Failed (VString "boom")); TimerRuns;
    Enqueue "req-4" 3; ExecuteEnds 0 (Fulfilled VNull) ].

(** Five submissions against a bound of two, each call of [execute]
    succeeding, the timer of each completion running before the next
    completion. *)
Definition five_tasks : list event :=
  [ Enqueue "req-1" 0; Enqueue "req-2" 1; Enqueue "req-3" 2;
    Enqueue "req-4" 3; Enqueue "req-5" 4;
    ExecuteEnds 0 (Fulfilled (VNumber one)); TimerRuns;
    ExecuteEnds 0 (Fulfilled (VNumber one)); TimerRuns;
    ExecuteEnds 0 (Fulfilled (VNumber one)); TimerRuns;
    ExecuteEnds 0 (Fulfilled (VNumber one)); TimerRuns;
    ExecuteEnds 0 (Fulfilled (VNumber one)); TimerRuns ].

(** Two requests in flight, one waiting, bound two. *)
Definition sample_request : request :=
  {| id := "req-1"; execute := 0; promise := 0 |}.

Definition sample_world : World :=
  {| vp := {| activeRequests :=
                {[ "req-1" := sample_request;
                   "req-2" := {| id := "req-2"; execute := 1; promise := 1 |} ]};
              requestQueue := [ {| id := "req-3"; execute := 2; promise := 2 |} ];
              maxConcurrent := 2 |};
     suspended := [ sample_request; {| id := "req-2"; execute := 1; promise := 1 |} ];
     timers := [];
     promises := 3 |}.

(** ** [VoiceConfig]: presets *)

(** The binary64 values of the literals used in [presets]. *)
Definition n_0_1 : number := S754_finite false 7205759403792794 (-56).
Definition n_0_2 : number := S754_finite false 7205759403792794 (-55).
Definition n_0_3 : number := S754_finite false 5404319552844595 (-54).
Definition n_0_4 : number := S754_finite false 7205759403792794 (-54).
Definition n_0_6 : number := S754_finite false 5404319552844595 (-53).
Definition n_0_7 : number := S754_finite false 6305039478318694 (-53).
Definition n_0_8 : number := S754_finite false 7205759403792794 (-53).
Definition n_0_9 : number := S754_finite false 8106479329266893 (-53).

(** An object literal [{ stability, similarityBoost, style, speakerBoost }]. *)
Definition settings_object (stability similarityBoost style : number) (speakerBoost : bool)
  : gmap string value :=
  {[ "stability" := VNumber stability;
     "similarityBoost" := VNumber similarityBoost;
     "style" := VNumber style;
     "speakerBoost" := VBool speakerBoost ]}.

(** [initVoiceSettings().presets], in source order. *)
Definition presets : list (string * gmap string value) :=
  [ ("natural", settings_object n_0_7 n_0_8 n_0_2 true);
    ("expressive", settings_object n_0_3 n_0_9 n_0_8 true);
    ("stable", settings_object n_0_9 n_0_6 n_0_1 false);
    ("creative", settings_object n_0_4 n_0_7 n_0_9 true) ].

(** Own property of an object literal written as a list of entries. *)
Fixpoint own_property {A} (o : list (string * A)) (k : string) : option A :=
  match o with
  | [] => None
  | (k', v) :: rest => if String.eqb k' k then Some v else own_property rest k
  end.

(** The properties every object literal inherits from [Object.prototype];
    each of them is a function or an object, hence truthy. *)
Definition Object_prototype_properties : list string :=
  [ "constructor"; "__defineGetter__"; "__defineSetter__"; "hasOwnProperty";
    "__lookupGetter__"; "__lookupSetter__"; "isPrototypeOf"; "propertyIsEnumerable";
    "toString"; "valueOf"; "__proto__"; "toLocaleString" ].

(** What [getVoicePreset] can return: a settings object, or a member of
    [Object.prototype] found through the prototype chain of [presets]. *)
Inductive preset_result :=
| SettingsObject (s : gmap string value)
| PrototypeMember (name : string).

(** [getVoicePreset(presetName)]:
    [this.voiceSettings.presets[presetName] || this.voiceSettings.default]. *)
Definition getVoicePreset (default : gmap string value) (presetName : string)
  : preset_result :=
  match own_property presets presetName with
  | Some p => SettingsObject p
  | None =>
      if bool_decide (presetName ∈ Object_prototype_properties)
      then PrototypeMember presetName
      else SettingsObject default
  end.

(** ** [VoiceConfig]: construction and [validateConfig] *)

(** The environment variables behind the fields [validateConfig] reads. *)
Record ConfigEnv := {
  ELEVENLABS_API_KEY : option string;
  ELEVENLABS_BASE_URL : option string;
  ELEVENLABS_TIMEOUT : option string;
  MAX_AUDIO_SIZE : option string;
  MAX_TEXT_LENGTH : option string
}.

(** The fields [validateConfig] reads: of [elevenLabsConfig], and
    [processingConfig.audio.maxFileSize], [processingConfig.text.maxLength]. *)
Record ConfigFields := {
  apiKey : string;
  baseUrl : string;
  timeout : number;
  maxFileSize : number;
  maxLength : number
}.

(** The binary64 values of [5000], [10000], [30000], [50 * 1024 * 1024]
    and [100 * 1024 * 1024]. *)
Definition n_5000 : number := S754_finite false 5497558138880000 (-40).
Definition n_10000 : number := S754_finite false 5497558138880000 (-39).
Definition n_30000 : number := S754_finite false 8246337208320000 (-38).
Definition n_50MB : number := S754_finite false 7036874417766400 (-27).
Definition n_100MB : number := S754_finite false 7036874417766400 (-26).

(** [parseInt(process.env.X)], with [parseInt] the global function. *)
Definition parseInt_env (parseInt : string -> number) (x : option string) : number :=
  match x with
  | Some s => parseInt s
  | None => NaN
  end.

(** The fields as [initElevenLabsConfig] and [initProcessingConfig] set
    them. *)
Definition initConfigFields (parseInt : string -> number) (env : ConfigEnv) : ConfigFields :=
  {| apiKey := string_or (ELEVENLABS_API_KEY env) "";
     baseUrl := string_or (ELEVENLABS_BASE_URL env) "https://api.elevenlabs.io/v1";
     timeout := number_or (parseInt_env parseInt (ELEVENLABS_TIMEOUT env)) n_30000;
     maxFileSize := number_or (parseInt_env parseInt (MAX_AUDIO_SIZE env)) n_50MB;
     maxLength := number_or (parseInt_env parseInt (MAX_TEXT_LENGTH env)) n_5000 |}.

(** The [errors] array [validateConfig] builds. *)
Definition validateConfig_errors (c : ConfigFields) : list string :=
  (if String.eqb (apiKey c) "" then ["ELEVENLABS_API_KEY is required"] else [])
  ++ (if String.eqb (baseUrl c) "" then ["ELEVENLABS_BASE_URL is required"] else [])
  ++ (if SFltb (timeout c) n_5000 then ["ELEVENLABS_TIMEOUT must be at least 5000ms"] else [])
  ++ (if SFltb n_100MB (maxFileSize c) then ["MAX_AUDIO_SIZE cannot exceed 100MB"] else [])
  ++ (if SFltb n_10000 (maxLength c)
      then ["MAX_TEXT_LENGTH cannot exceed 10000 characters"] else []).

(** [validateConfig()]: [Some m] when it throws [new Error(m)]. *)
Definition validateConfig (c : ConfigFields) : option string :=
  match validateConfig_errors c with
  | [] => None
  | errors => Some ("Configuration errors: " +:+ String.concat ", " errors)
  end.

(** [new VoiceConfig()]: the fields, or the message of the error the
    constructor throws. *)
Definition new_VoiceConfig (parseInt : string -> number) (env : ConfigEnv)
  : string + ConfigFields :=
  let c := initConfigFields parseInt env in
  match validateConfig c with
  | Some m => inl m
  | None => inr c
  end.

(** ** [VoiceConfig.isAudioFormatSupported] *)

(** [processingConfig.audio.supportedFormats] *)
Definition supportedFormats : list string := [".mp3"; ".wav"; ".m4a"; ".flac"; ".ogg"].

(** The character ['.'], code 46. *)
Definition full_stop : Ascii.ascii := Ascii.ascii_of_nat 46.

(** [toLowerCase] on one character of the ASCII range. *)
Definition toLowerCase_ascii (c : Ascii.ascii) : Ascii.ascii :=
  let n := Ascii.nat_of_ascii c in
  if (65 <=? n)%nat && (n <=? 90)%nat then Ascii.ascii_of_nat (n + 32) else c.

(** A string all of whose characters are in the ASCII range; on these
    [toLowerCase] works character by character. *)
Definition is_ascii_string (s : string) : Prop :=
  Forall (fun c => Ascii.nat_of_ascii c < 128) (String.list_ascii_of_string s).

(** [s.lastIndexOf(c)]; [None] stands for -1. *)
Fixpoint lastIndexOf (c : Ascii.ascii) (s : list Ascii.ascii) : option nat :=
  match s with
  | [] => None
  | x :: rest =>
      match lastIndexOf c rest with
      | Some i => Some (S i)
      | None => if Ascii.eqb x c then Some 0 else None
      end
  end.

(** [s.substring(start)]: a negative start counts as 0. *)
Definition substring_from (start : option nat) (s : list Ascii.ascii) : list Ascii.ascii :=
  match start with
  | Some i => drop i s
  | None => s
  end.

(** [s.toLowerCase()] for a string of the ASCII range. *)
Definition toLowerCase (s : string) : string :=
  String.string_of_list_ascii (toLowerCase_ascii <$> String.list_ascii_of_string s).

(** [isAudioFormatSupported(filename)]:
    [filename.toLowerCase().substring(filename.lastIndexOf('.'))] must be
    one of the supported formats. *)
Definition isAudioFormatSupported (filename : string) : bool :=
  let ext :=
    String.string_of_list_ascii
      (substring_from (lastIndexOf full_stop (String.list_ascii_of_string filename))
                      (String.list_ascii_of_string (toLowerCase filename))) in
  existsb (String.eqb ext) supportedFormats.

(** ** [VoiceValidators.validateVoiceSettings] and the synthesis route *)

Module VoiceValidators.

(** A destructuring default [{ k = d } = settings]: used when the
    property is absent or [undefined]. *)
Definition destructure (settings : gmap string value) (k : string) (d : value) : value :=
  match settings !! k with
  | Some VUndefined | None => d
  | Some v => v
  end.

(** [typeof v !== 'number' || v < 0 || v > 1] *)
Definition not_in_unit_interval (v : value) : bool :=
  match v with
  | VNumber n => SFltb n pos_zero || SFltb one n
  | _ => true
  end.

(** [typeof v !== 'boolean'] *)
Definition not_boolean (v : value) : bool :=
  match v with
  | VBool _ => false
  | _ => true
  end.

Record Validation := {
  isValid : bool;
  errors : list string;
  sanitized : gmap string value
}.

(** [validateVoiceSettings(settings)] of [src/utils/validators.js]. *)
Definition validateVoiceSettings (rt : Runtime) (settings : gmap string value) : Validation :=
  let stability := destructure settings "stability" (VNumber half) in
  let similarityBoost := destructure settings "similarityBoost" (VNumber half) in
  let style := destructure settings "style" (VNumber pos_zero) in
  let speakerBoost := destructure settings "speakerBoost" (VBool true) in
  let errors :=
    (if not_in_unit_interval stability
     then ["Stability must be a number between 0 and 1"] else [])
    ++ (if not_in_unit_interval similarityBoost
        then ["Similarity boost must be a number between 0 and 1"] else [])
    ++ (if not_in_unit_interval style
        then ["Style must be a number between 0 and 1"] else [])
    ++ (if not_boolean speakerBoost
        then ["Speaker boost must be a boolean"] else []) in
  {| isValid := (length errors =? 0)%nat;
     errors := errors;
     sanitized :=
       {[ "stability" := clamp01 rt stability;
          "similarityBoost" := clamp01 rt similarityBoost;
          "style" := clamp01 rt style;
          "speakerBoost" := Boolean speakerBoost;
          "bigBrotherCompliant" := VBool true ]} |}.

End VoiceValidators.



(** The complaint of the validator about a numeric property. *)
Definition range_error (k : string) : string :=
  if String.eqb k "stability" then "Stability must be a number between 0 and 1"
  else if String.eqb k "similarityBoost"
       then "Similarity boost must be a number between 0 and 1"
       else "Style must be a number between 0 and 1".

(** Settings the validator accepts. *)
Definition accepted_settings_sample : gmap string value :=
  {[ "stability" := VNumber n_0_7; "speakerBoost" := VBool false ]}.

(** How many timers a sequence of events runs. *)
Fixpoint timer_runs (es : list event) : nat :=
  match es with
  | [] => 0
  | TimerRuns :: rest => S (timer_runs rest)
  | _ :: rest => timer_runs rest
  end.

(** [process.env] with none of the variables of [ConfigEnv] set. *)
Definition config_env_unset : ConfigEnv :=
  {| ELEVENLABS_API_KEY := None;
     ELEVENLABS_BASE_URL := None;
     ELEVENLABS_TIMEOUT := None;
     MAX_AUDIO_SIZE := None;
     MAX_TEXT_LENGTH := None |}.

(** ** More predicates on the state of the queue *)

(** What the queue needs to keep going: the bound is [K], the active set
    holds no entry without a running call, and no request waits without
    a wake-up. *)
Definition healthy (K : Z) (w : World) : Prop :=
  maxConcurrent (vp w) = K /\ active_are_suspended w /\ not_stranded w.

(** * Proof steps used more than once *)

(** [H : x ∈ [a; b; ...]] with [x] different from every element. *)
Ltac absurd_elem_of H :=
  repeat (apply elem_of_cons in H as [H | H]; [discriminate H|]);
  by apply elem_of_nil in H.

(** Splits [H : run w (e :: es) = Some _] into its first step [E] and the
    rest of the run [R]. *)
Ltac run_inversion H w1 acts w2 tr' E R :=
  cbn [run] in H;
  destruct (step _ _) as [[w1 acts]|] eqn:E in H; [|discriminate H];
  destruct (run w1 _) as [[w2 tr']|] eqn:R in H; [|discriminate H];
  inversion H; subst; clear H.

(** * Properties of the settings normaliser *)

Section Clamp.

Lemma SFltb_SFleb a b : SFltb a b = true -> SFleb a b = true.
Proof. unfold SFltb, SFleb. destruct (SFcompare a b) as [[]|]; auto. Qed.

(** [Math.min(1, x)] *)
Lemma Math_min_one x :
  Math_min [one; x] = if is_nan x then NaN else if SFltb x one then x else one.
Proof.
  unfold Math_min.
  change (fold_left min_step [one; x] (Some pos_infinity)) with (min_step (Some one) x).
  destruct x as [[]|[]| |s m e]; try reflexivity.
  cbn [min_step is_nan one]. fold one.
  destruct (SFltb (S754_finite s m e) one); reflexivity.
Qed.

(** [Math.max(0, y)] *)
Lemma Math_max_zero y :
  Math_max [pos_zero; y] = if is_nan y then NaN else if SFltb pos_zero y then y else pos_zero.
Proof.
  unfold Math_max.
  change (fold_left max_step [pos_zero; y] (Some neg_infinity))
    with (max_step (Some pos_zero) y).
  destruct y as [[]|[]| |s m e]; try reflexivity.
  cbn [max_step is_nan pos_zero]. fold pos_zero.
  destruct (SFltb pos_zero (S754_finite s m e)); reflexivity.
Qed.

Variable rt : Runtime.

Lemma clamp01_nan v : is_nan (ToNumber rt v) = true -> clamp01 rt v = VNumber NaN.
Proof.
  unfold clamp01. intros H. rewrite Math_min_one, H. reflexivity.
Qed.

(** Any number other than NaN is brought into the range. *)
Lemma clamp01_in_range v : is_nan (ToNumber rt v) = false -> in_range (clamp01 rt v) = true.
Proof.
  unfold clamp01, in_range. intros H. rewrite Math_min_one, H.
  destruct (SFltb (ToNumber rt v) one) eqn:H1.
  - rewrite Math_max_zero, H.
    destruct (SFltb pos_zero (ToNumber rt v)) eqn:H0.
    + rewrite (SFltb_SFleb _ _ H0), (SFltb_SFleb _ _ H1). reflexivity.
    + reflexivity.
  - reflexivity.
Qed.

(** Clamping a clamped value changes nothing. *)
Lemma clamp01_clamp01 v : clamp01 rt (clamp01 rt v) = clamp01 rt v.
Proof.
  unfold clamp01. cbn [ToNumber]. rewrite (Math_min_one (ToNumber rt v)).
  destruct (is_nan (ToNumber rt v)) eqn:H; [reflexivity|].
  destruct (SFltb (ToNumber rt v) one) eqn:H1; [|reflexivity].
  rewrite (Math_max_zero (ToNumber rt v)), H.
  destruct (SFltb pos_zero (ToNumber rt v)) eqn:H0; [|reflexivity].
  rewrite Math_min_one, H, H1, Math_max_zero, H, H0. reflexivity.
Qed.

Lemma Boolean_Boolean v : Boolean (Boolean v) = Boolean v.
Proof. reflexivity. Qed.

End Clamp.

Section Normaliser.

Variable rt : Runtime.
Implicit Types (default settings : gmap string value) (k : string).

Lemma get_insert_eq (o : gmap string value) k v : get (<[k := v]> o) k = v.
Proof. unfold get. by rewrite lookup_insert_eq. Qed.

Lemma get_insert_ne (o : gmap string value) k k' v :
  k ≠ k' -> get (<[k := v]> o) k' = get o k'.
Proof. intros H. unfold get. by rewrite lookup_insert_ne. Qed.

(** The four assignments read the merged object only: none reads what
    an earlier one wrote. *)
Lemma validateVoiceSettings_unfold default settings :
  validateVoiceSettings rt default settings =
  let merged := settings ∪ default in
  <["speakerBoost" := Boolean (get merged "speakerBoost")]>
    (<["style" := clamp01 rt (get merged "style")]>
       (<["similarityBoost" := clamp01 rt (get merged "similarityBoost")]>
          (<["stability" := clamp01 rt (get merged "stability")]> merged))).
Proof.
  unfold validateVoiceSettings, spread. cbv zeta.
  rewrite !get_insert_ne by done. reflexivity.
Qed.

Lemma validateVoiceSettings_lookup default settings k :
  validateVoiceSettings rt default settings !! k =
  let merged := settings ∪ default in
  if decide (k = "speakerBoost") then Some (Boolean (get merged "speakerBoost"))
  else if decide (k = "style") then Some (clamp01 rt (get merged "style"))
  else if decide (k = "similarityBoost") then Some (clamp01 rt (get merged "similarityBoost"))
  else if decide (k = "stability") then Some (clamp01 rt (get merged "stability"))
  else merged !! k.
Proof.
  rewrite validateVoiceSettings_unfold. cbv zeta.
  rewrite !lookup_insert. repeat case_decide; congruence.
Qed.

Lemma get_validateVoiceSettings default settings k :
  get (validateVoiceSettings rt default settings) k =
  let merged := settings ∪ default in
  if decide (k = "speakerBoost") then Boolean (get merged "speakerBoost")
  else if decide (k = "style") then clamp01 rt (get merged "style")
  else if decide (k = "similarityBoost") then clamp01 rt (get merged "similarityBoost")
  else if decide (k = "stability") then clamp01 rt (get merged "stability")
  else get merged k.
Proof.
  unfold get at 1. rewrite validateVoiceSettings_lookup. cbv zeta.
  repeat case_decide; reflexivity.
Qed.

(** Every property of the defaults or of the input is a property of the
    output. *)
Lemma validateVoiceSettings_keeps_keys default settings k :
  is_Some ((settings ∪ default) !! k) ->
  is_Some (validateVoiceSettings rt default settings !! k).
Proof.
  intros H. rewrite validateVoiceSettings_lookup. cbv zeta.
  repeat case_decide; eauto.
Qed.

Lemma get_union_l (a b : gmap string value) k :
  is_Some (a !! k) -> get (a ∪ b) k = get a k.
Proof. intros H. unfold get. by rewrite lookup_union_l'. Qed.

Lemma lookup_initVoiceSettings env k :
  k ∉ normalized_fields -> initVoiceSettings rt env !! k = None.
Proof.
  unfold normalized_fields, initVoiceSettings. intros H.
  rewrite !lookup_insert_ne by set_solver.
  apply lookup_singleton_ne. set_solver.
Qed.

End Normaliser.

Section NormaliserClaims.

Variable rt : Runtime.
Implicit Types (settings : gmap string value) (env : ProcessEnv).

Lemma get_merged_missing settings default k :
  settings !! k = None -> get (settings ∪ default) k = get default k.
Proof. intros H. unfold get. by rewrite lookup_union_r. Qed.

Lemma get_initVoiceSettings env :
  get (initVoiceSettings rt env) "stability"
    = VNumber (number_or (parseFloat_env rt (DEFAULT_STABILITY env)) half)
  /\ get (initVoiceSettings rt env) "similarityBoost"
    = VNumber (number_or (parseFloat_env rt (DEFAULT_SIMILARITY_BOOST env)) half)
  /\ get (initVoiceSettings rt env) "style"
    = VNumber (number_or (parseFloat_env rt (DEFAULT_STYLE env)) pos_zero)
  /\ get (initVoiceSettings rt env) "speakerBoost"
    = VBool (env_is_true (DEFAULT_SPEAKER_BOOST env)).
Proof. repeat split; reflexivity. Qed.

(** A missing property is filled from the configured default, whatever
    the environment. *)
Lemma normalize_missing env settings :
  (settings !! "stability" = None ->
   normalize rt env settings !! "stability"
   = Some (clamp01 rt (VNumber (number_or (parseFloat_env rt (DEFAULT_STABILITY env)) half))))
  /\ (settings !! "similarityBoost" = None ->
      normalize rt env settings !! "similarityBoost"
      = Some (clamp01 rt (VNumber (number_or (parseFloat_env rt (DEFAULT_SIMILARITY_BOOST env)) half))))
  /\ (settings !! "style" = None ->
      normalize rt env settings !! "style"
      = Some (clamp01 rt (VNumber (number_or (parseFloat_env rt (DEFAULT_STYLE env)) pos_zero))))
  /\ (settings !! "speakerBoost" = None ->
      normalize rt env settings !! "speakerBoost"
      = Some (VBool (env_is_true (DEFAULT_SPEAKER_BOOST env)))).
Proof.
  destruct (get_initVoiceSettings env) as (D1 & D2 & D3 & D4).
  unfold normalize.
  repeat split; intros H; rewrite validateVoiceSettings_lookup; cbv zeta;
    repeat (case_decide; [discriminate|]); (case_decide; [|congruence]);
    rewrite (get_merged_missing _ _ _ H).
  - by rewrite D1.
  - by rewrite D2.
  - by rewrite D3.
  - by rewrite D4.
Qed.

(** C4, as amended. A property missing from the input is filled from the
    configured default [this.voiceSettings.default] and normalised like
    any other value: the three numbers are [parseFloat] of the
    [DEFAULT_*] variable, or 0.5, 0.5, 0.0 when that is NaN or zero,
    clamped; [speakerBoost] is whether [DEFAULT_SPEAKER_BOOST] is the
    string 'true'. With none of the variables set the result is
    stability 0.5, similarityBoost 0.5, style 0.0, speakerBoost false. *)
Theorem validateVoiceSettings_fills_missing settings :
  (forall env,
      (settings !! "stability" = None ->
       normalize rt env settings !! "stability"
       = Some (clamp01 rt (VNumber (number_or (parseFloat_env rt (DEFAULT_STABILITY env)) half))))
      /\ (settings !! "similarityBoost" = None ->
          normalize rt env settings !! "similarityBoost"
          = Some (clamp01 rt (VNumber (number_or (parseFloat_env rt (DEFAULT_SIMILARITY_BOOST env)) half))))
      /\ (settings !! "style" = None ->
          normalize rt env settings !! "style"
          = Some (clamp01 rt (VNumber (number_or (parseFloat_env rt (DEFAULT_STYLE env)) pos_zero))))
      /\ (settings !! "speakerBoost" = None ->
          normalize rt env settings !! "speakerBoost"
          = Some (VBool (env_is_true (DEFAULT_SPEAKER_BOOST env)))))
  /\ (settings !! "stability" = None ->
      normalize rt env_unset settings !! "stability" = Some (VNumber half))
  /\ (settings !! "similarityBoost" = None ->
      normalize rt env_unset settings !! "similarityBoost" = Some (VNumber half))
  /\ (settings !! "style" = None ->
      normalize rt env_unset settings !! "style" = Some (VNumber pos_zero))
  /\ (settings !! "speakerBoost" = None ->
      normalize rt env_unset settings !! "speakerBoost" = Some (VBool false)).
Proof.
  split; [intros env; apply normalize_missing|].
  destruct (normalize_missing env_unset settings) as (G1 & G2 & G3 & G4).
  split; [intros H; rewrite (G1 H); reflexivity|].
  split; [intros H; rewrite (G2 H); reflexivity|].
  split; [intros H; rewrite (G3 H); reflexivity|].
  intros H. rewrite (G4 H). reflexivity.
Qed.

(** C5 at the failing input [{ stability: NaN }]: the normalised
    stability is NaN, which is not within [0,1]. *)
Theorem validateVoiceSettings_NaN_not_clamped env :
  normalize rt env {[ "stability" := VNumber NaN ]} !! "stability" = Some (VNumber NaN)
  /\ in_range (VNumber NaN) = false.
Proof.
  split; [|reflexivity].
  unfold normalize. rewrite validateVoiceSettings_lookup. cbv zeta.
  repeat (case_decide; [discriminate|]). case_decide; [|congruence].
  rewrite get_union_l by (rewrite lookup_singleton_eq; eauto).
  reflexivity.
Qed.

(** What does hold of C5: a value that reads as a number other than NaN
    comes out within [0,1], whatever its size or sign. *)
Lemma validateVoiceSettings_in_range default settings k :
  k ∈ ["stability"; "similarityBoost"; "style"] ->
  is_nan (ToNumber rt (get (settings ∪ default) k)) = false ->
  in_range (get (validateVoiceSettings rt default settings) k) = true.
Proof.
  intros Hk Hn. rewrite get_validateVoiceSettings. cbv zeta.
  repeat (apply elem_of_cons in Hk as [-> | Hk]); [..| by apply elem_of_nil in Hk];
    repeat (case_decide; [discriminate|]); (case_decide; [|congruence]);
    by apply clamp01_in_range.
Qed.

Lemma clamp01_one_and_a_half : clamp01 rt (VNumber one_and_a_half) = VNumber one.
Proof. reflexivity. Qed.

Lemma clamp01_minus_point_two : clamp01 rt (VNumber minus_point_two) = VNumber pos_zero.
Proof. reflexivity. Qed.

(** C8. Normalising the output of the normaliser gives that output
    back. *)
Theorem validateVoiceSettings_idempotent env settings :
  normalize rt env (normalize rt env settings) = normalize rt env settings.
Proof.
  unfold normalize. set (default := initVoiceSettings rt env).
  apply map_eq. intros k.
  rewrite (validateVoiceSettings_lookup rt default (validateVoiceSettings rt default settings)).
  cbv zeta.
  assert (K : forall k', is_Some ((settings ∪ default) !! k') ->
              get (validateVoiceSettings rt default settings ∪ default) k'
              = get (validateVoiceSettings rt default settings) k').
  { intros k' H. apply get_union_l. by apply validateVoiceSettings_keeps_keys. }
  assert (D : forall k', k' ∈ normalized_fields -> is_Some ((settings ∪ default) !! k')).
  { intros k' H. apply lookup_union_is_Some. right.
    unfold normalized_fields in H.
    repeat (apply elem_of_cons in H as [-> | H]); try (eexists; reflexivity).
    by apply elem_of_nil in H. }
  rewrite !K by (apply D; unfold normalized_fields; set_solver).
  rewrite !get_validateVoiceSettings, validateVoiceSettings_lookup. cbv zeta.
  repeat case_decide; try discriminate; try congruence;
    rewrite ?clamp01_clamp01, ?Boolean_Boolean; try reflexivity.
  rewrite lookup_union, validateVoiceSettings_lookup. cbv zeta.
  repeat (case_decide; [congruence|]).
  rewrite lookup_union.
  destruct (settings !! k), (default !! k); reflexivity.
Qed.

(** C10. A property other than the four normalised ones is in the
    output exactly as it is in the input. *)
Theorem validateVoiceSettings_keeps_other_fields env settings k :
  k ∉ normalized_fields ->
  normalize rt env settings !! k = settings !! k.
Proof.
  intros H. unfold normalize. rewrite validateVoiceSettings_lookup. cbv zeta.
  unfold normalized_fields in H.
  repeat (case_decide; [set_solver|]).
  by rewrite lookup_union_l by (by apply lookup_initVoiceSettings).
Qed.

End NormaliserClaims.

(** C4 as stated fails: with no [DEFAULT_SPEAKER_BOOST] in the
    environment, the empty settings object comes out with
    [speakerBoost: false], not [true]. *)
Lemma validateVoiceSettings_default_speakerBoost_false :
  (∅ : gmap string value) !! "speakerBoost" = None
  /\ normalize runtime_numeric_only env_unset ∅ !! "speakerBoost" = Some (VBool false)
  /\ normalize runtime_numeric_only env_unset ∅ !! "speakerBoost" ≠ Some (VBool true).
Proof.
  split; [reflexivity|]. split; [reflexivity|].
  intros H. vm_compute in H. discriminate H.
Qed.

Lemma validateVoiceSettings_fills_missing_witness :
  normalize runtime_numeric_only env_unset ∅ !! "stability" = Some (VNumber half)
  /\ normalize runtime_numeric_only env_unset ∅ !! "similarityBoost" = Some (VNumber half)
  /\ normalize runtime_numeric_only env_unset ∅ !! "style" = Some (VNumber pos_zero)
  /\ normalize runtime_numeric_only env_unset ∅ !! "speakerBoost" = Some (VBool false).
Proof.
  destruct (validateVoiceSettings_fills_missing runtime_numeric_only ∅)
    as (_ & H1 & H2 & H3 & H4).
  split; [apply H1; reflexivity|].
  split; [apply H2; reflexivity|].
  split; [apply H3; reflexivity|].
  apply H4; reflexivity.
Defined.

Lemma validateVoiceSettings_keeps_other_fields_witness :
  ("voiceModel" ∉ normalized_fields)
  /\ normalize runtime_numeric_only env_unset settings_with_extra_field !! "voiceModel"
     = settings_with_extra_field !! "voiceModel".
Proof.
  assert (H : "voiceModel" ∉ normalized_fields).
  { unfold normalized_fields. intros H. absurd_elem_of H. }
  split; [exact H|].
  exact (validateVoiceSettings_keeps_other_fields runtime_numeric_only env_unset _ _ H).
Defined.

(** The two inputs named in C5 do clamp. *)
Example validateVoiceSettings_stability_too_large :
  normalize runtime_numeric_only env_unset {[ "stability" := VNumber one_and_a_half ]}
    !! "stability" = Some (VNumber one).
Proof. reflexivity. Qed.

Example validateVoiceSettings_stability_negative :
  normalize runtime_numeric_only env_unset {[ "stability" := VNumber minus_point_two ]}
    !! "stability" = Some (VNumber pos_zero).
Proof. reflexivity. Qed.

(** * Properties of the error translator *)

Section ErrorTranslator.

Lemma errorMap_get_other message (s : Z) :
  s ∉ mapped_statuses -> errorMap_get (errorMap message) (Some s) = None.
Proof.
  unfold mapped_statuses. intros H. cbn [errorMap errorMap_get].
  repeat match goal with
         | |- context [(?k =? s)%Z] =>
             destruct (Z.eqb_spec k s) as [<-|_]; [exfalso; apply H; set_solver|]
         end.
  reflexivity.
Qed.

Lemma string_or_nonempty (s b : string) : s ≠ "" -> string_or (Some s) b = s.
Proof.
  intros H. unfold string_or. destruct (String.eqb_spec s ""); congruence.
Qed.

(** C6. The translation is a function of the captured status and of the
    detail text [error_detail], which is the provider's [detail] when
    there is a non-empty one and [error.message] otherwise. *)
Theorem handleElevenLabsError_table (d : option string) (m : string) :
  let err s := {| response := Some {| status := s; detail := d |}; message := m |} in
  handleElevenLabsError (err 401%Z) = "Invalid ElevenLabs API key"
  /\ handleElevenLabsError (err 402%Z) = "ElevenLabs quota exceeded"
  /\ handleElevenLabsError (err 422%Z) = "Invalid request: " +:+ error_detail (err 422%Z)
  /\ handleElevenLabsError (err 429%Z) = "ElevenLabs rate limit exceeded"
  /\ handleElevenLabsError (err 500%Z) = "ElevenLabs server error"
  /\ handleElevenLabsError (err 999%Z) = "ElevenLabs API error: " +:+ error_detail (err 999%Z)
  /\ (forall s, s ∉ mapped_statuses ->
        handleElevenLabsError (err s) = "ElevenLabs API error: " +:+ error_detail (err s))
  /\ handleElevenLabsError {| response := None; message := m |} = "ElevenLabs API error: " +:+ m
  /\ (forall s t, d = Some t -> t ≠ "" -> error_detail (err s) = t)
  /\ (forall s, d = None -> error_detail (err s) = m).
Proof.
  cbv zeta.
  assert (O : forall s, s ∉ mapped_statuses ->
    handleElevenLabsError {| response := Some {| status := s; detail := d |}; message := m |}
    = "ElevenLabs API error: "
      +:+ error_detail {| response := Some {| status := s; detail := d |}; message := m |}).
  { intros s H. unfold handleElevenLabsError. cbn [response fmap option_fmap option_map status].
    rewrite (errorMap_get_other _ _ H). reflexivity. }
  do 5 (split; [reflexivity|]).
  split.
  { apply O. unfold mapped_statuses. intros H. absurd_elem_of H. }
  split; [exact O|].
  split; [reflexivity|].
  split.
  - intros s t -> Ht. unfold error_detail. cbn. by apply string_or_nonempty.
  - intros s ->. reflexivity.
Qed.

End ErrorTranslator.

Lemma handleElevenLabsError_table_witness :
  handleElevenLabsError
    {| response := Some {| status := 503; detail := Some "upstream down" |};
       message := "Request failed with status code 503" |}
  = "ElevenLabs API error: upstream down".
Proof.
  destruct (handleElevenLabsError_table (Some "upstream down")
              "Request failed with status code 503")
    as (_ & _ & _ & _ & _ & _ & H & _ & D & _).
  rewrite H.
  - rewrite (D 503%Z "upstream down" eq_refl); [reflexivity | discriminate].
  - unfold mapped_statuses. intros E. absurd_elem_of E.
Defined.

(** * Properties of the request queue *)

Section Dispatcher.

Implicit Types (w : World) (r : request) (e : event) (es : list event)
  (acts tr : list action).

(** [processQueue] either leaves everything as it is, or takes the head
    of the queue, records it as active and calls its [execute]. *)
Lemma processQueue_spec w w' acts :
  processQueue w = (w', acts) ->
  (w' = w /\ acts = [])
  \/ exists r rest,
      requestQueue (vp w) = r :: rest
      /\ (Z.of_nat (size (activeRequests (vp w))) < maxConcurrent (vp w))%Z
      /\ acts = [Started r]
      /\ activeRequests (vp w') = <[id r := r]> (activeRequests (vp w))
      /\ requestQueue (vp w') = rest
      /\ maxConcurrent (vp w') = maxConcurrent (vp w)
      /\ suspended w' = suspended w ++ [r]
      /\ timers w' = timers w
      /\ promises w' = promises w.
Proof.
  unfold processQueue. intros H.
  destruct (Z.geb_spec (Z.of_nat (size (activeRequests (vp w)))) (maxConcurrent (vp w)))
    as [Hfull|Hfree]; cbn [orb] in H.
  { left. by inversion H. }
  destruct (requestQueue (vp w)) as [|r rest] eqn:Hq; cbn in H.
  { left. by inversion H. }
  right. exists r, rest. inversion H; subst; cbn. repeat split; done.
Qed.

Lemma step_spec w e w' acts :
  step w e = Some (w', acts) ->
  match e with
  | Enqueue requestId executeFunction =>
      exists pacts,
        acts = Accepted {| id := requestId; execute := executeFunction;
                           promise := promises w |} :: pacts
        /\ processQueue
             {| vp := {| activeRequests := activeRequests (vp w);
                         requestQueue := requestQueue (vp w)
                                         ++ [{| id := requestId; execute := executeFunction;
                                                promise := promises w |}];
                         maxConcurrent := maxConcurrent (vp w) |};
                suspended := suspended w; timers := timers w;
                promises := S (promises w) |} = (w', pacts)
  | ExecuteEnds k o =>
      exists r,
        suspended w !! k = Some r
        /\ acts = [settle r o]
        /\ activeRequests (vp w') = delete (id r) (activeRequests (vp w))
        /\ requestQueue (vp w') = requestQueue (vp w)
        /\ maxConcurrent (vp w') = maxConcurrent (vp w)
        /\ suspended w' = delete k (suspended w)
        /\ timers w' = timers w ++ [100%Z]
        /\ promises w' = promises w
  | TimerRuns =>
      exists d rest,
        timers w = d :: rest
        /\ processQueue {| vp := vp w; suspended := suspended w;
                           timers := rest; promises := promises w |} = (w', acts)
  end.
Proof.
  destruct e as [requestId executeFunction|k o|]; cbn [step]; intros H.
  - unfold queueRequest in H.
    destruct (processQueue _) as [w1 pacts] eqn:E in H.
    inversion H; subst. eauto.
  - destruct (suspended w !! k) as [r|] eqn:E; [|discriminate].
    exists r. inversion H; subst; cbn. repeat split; done.
  - destruct (timers w) as [|d rest] eqn:E; [discriminate|].
    exists d, rest. split; [done|]. by inversion H.
Qed.

(** A property kept by every step holds after every run. *)
Lemma run_invariant (P : World -> Prop) :
  (forall w e w' acts, P w -> step w e = Some (w', acts) -> P w') ->
  forall es w w' tr, P w -> run w es = Some (w', tr) -> P w'.
Proof.
  intros Hstep es. induction es as [|e es IH]; intros w w' tr HP H; cbn in H.
  - by inversion H; subst.
  - run_inversion H w1 acts w2 tr' E R. eapply IH; [|exact R]. eapply Hstep; eauto.
Qed.

(** ** The bound on the active set *)

Lemma processQueue_within_bound K w w' acts :
  within_bound K w -> processQueue w = (w', acts) -> within_bound K w'.
Proof.
  intros [HK Hle] H. apply processQueue_spec in H as [[-> _]|H]; [done|].
  destruct H as (r & rest & _ & Hlt & _ & Ha & _ & Hm & _).
  split; [congruence|]. rewrite Ha, map_size_insert.
  destruct (activeRequests (vp w) !! id r); cbv [Datatypes.id]; lia.
Qed.

Lemma step_within_bound K w e w' acts :
  within_bound K w -> step w e = Some (w', acts) -> within_bound K w'.
Proof.
  intros HB H. apply step_spec in H. destruct e as [i f|k o|].
  - destruct H as (pacts & _ & H).
    eapply processQueue_within_bound; [|exact H]. exact HB.
  - destruct H as (r & _ & _ & Ha & _ & Hm & _). destruct HB as [HK Hle].
    split; [congruence|]. rewrite Ha, map_size_delete.
    destruct (activeRequests (vp w) !! id r); cbv [Datatypes.id]; lia.
  - destruct H as (d & rest & _ & H).
    eapply processQueue_within_bound; [|exact H]. exact HB.
Qed.

(** ** Distinct ids: the active set mirrors the suspended activations *)

(** Starting a request moves it from the head of the queue to the end
    of the suspended activations. *)
Lemma processQueue_pending w w' acts :
  processQueue w = (w', acts) ->
  suspended w' ++ requestQueue (vp w') = suspended w ++ requestQueue (vp w).
Proof.
  intros H. apply processQueue_spec in H as [[-> _]|H]; [done|].
  destruct H as (r & rest & Hq & _ & _ & _ & Hq' & _ & Hs & _).
  by rewrite Hs, Hq', Hq, <- app_assoc.
Qed.

Lemma processQueue_ids_consistent w w' acts :
  ids_consistent w -> processQueue w = (w', acts) -> ids_consistent w'.
Proof.
  intros [Hnd Hdom] H. pose proof (processQueue_pending _ _ _ H) as Hp.
  apply processQueue_spec in H as [[-> _]|H]; [done|].
  destruct H as (r & rest & _ & _ & _ & Ha & _ & _ & Hs & _).
  split.
  - unfold pending_ids. by rewrite Hp.
  - rewrite Ha, Hs, dom_insert_L, Hdom, fmap_app, list_to_set_app_L. cbn.
    rewrite (right_id_L ∅ (∪)). apply (comm_L (∪)).
Qed.

Lemma step_ids_consistent w e w' acts :
  ids_consistent w ->
  (forall i f, e = Enqueue i f -> i ∉ pending_ids w) ->
  step w e = Some (w', acts) ->
  ids_consistent w'
  /\ (forall j, j ∈ pending_ids w' -> j ∈ pending_ids w \/ exists f, e = Enqueue j f).
Proof.
  intros [Hnd Hdom] Hfresh H. apply step_spec in H. destruct e as [i f|k o|].
  - destruct H as (pacts & _ & H).
    pose proof (processQueue_pending _ _ _ H) as Hp. cbn in Hp.
    assert (Hids : pending_ids w' = pending_ids w ++ [i]).
    { unfold pending_ids. rewrite Hp, app_assoc, fmap_app. reflexivity. }
    split.
    + eapply processQueue_ids_consistent; [|exact H]. split; cbn; [|exact Hdom].
      unfold pending_ids in *. cbn. rewrite app_assoc, fmap_app. cbn.
      apply NoDup_app. split; [exact Hnd|]. split; [|apply NoDup_singleton].
      intros x Hx Hx'. apply list_elem_of_singleton in Hx' as ->.
      by apply (Hfresh i f).
    + intros j. rewrite Hids, elem_of_app, list_elem_of_singleton.
      intros [?| ->]; eauto.
  - destruct H as (r & Hk & _ & Ha & Hq & _ & Hs & _).
    pose proof (delete_Permutation _ _ _ Hk) as Hperm.
    assert (Hall : pending_ids w ≡ₚ id r :: pending_ids w').
    { unfold pending_ids. rewrite Hs, Hq, !fmap_app, Hperm at 1. reflexivity. }
    rewrite Hall in Hnd. apply NoDup_cons in Hnd as [Hr Hnd'].
    split; [split; [exact Hnd'|]|].
    + rewrite Ha, Hs, dom_delete_L, Hdom.
      assert (Hr' : id r ∉ id <$> delete k (suspended w)).
      { intros Hin. apply Hr. unfold pending_ids. rewrite Hs, fmap_app, elem_of_app. by left. }
      apply set_eq. intros x.
      rewrite elem_of_difference, !elem_of_list_to_set, elem_of_singleton.
      rewrite Hperm at 1. rewrite fmap_cons, elem_of_cons.
      split; [intros [[->|?] ?]; done|].
      intros Hx. split; [by right|]. by intros ->.
    + intros j Hj. left. rewrite Hall. by right.
  - destruct H as (d & rest & _ & H).
    pose proof (processQueue_pending _ _ _ H) as Hp. cbn in Hp.
    split.
    + eapply processQueue_ids_consistent; [|exact H]. by split.
    + intros j Hj. left. unfold pending_ids in *. by rewrite <- Hp.
Qed.

Lemma run_ids_consistent es w w' tr :
  ids_consistent w ->
  NoDup (ids_of es) ->
  (forall i, i ∈ ids_of es -> i ∉ pending_ids w) ->
  run w es = Some (w', tr) ->
  ids_consistent w'.
Proof.
  revert w w' tr. induction es as [|e es IH]; intros w w' tr HJ Hnd Hfresh H; cbn in H.
  - by inversion H; subst.
  - run_inversion H w1 acts w2 tr' E R.
    assert (Hf : forall i f, e = Enqueue i f -> i ∉ pending_ids w).
    { intros i f ->. apply Hfresh. cbn. left. }
    destruct (step_ids_consistent w e w1 acts HJ Hf E) as [HJ1 Hsub].
    eapply IH; [exact HJ1| | |exact R].
    + destruct e; cbn in Hnd; [by apply NoDup_cons in Hnd as [_ ?]|done..].
    + intros i Hi Hin. apply Hsub in Hin as [Hin|[f ->]].
      * revert Hin. apply Hfresh. destruct e; cbn; [by right|done..].
      * cbn in Hnd. by apply NoDup_cons in Hnd as [? _].
Qed.

Lemma ids_consistent_size w :
  ids_consistent w -> length (suspended w) = size (activeRequests (vp w)).
Proof.
  intros [Hnd Hdom]. rewrite <- size_dom, Hdom, size_list_to_set, length_fmap; [done|].
  unfold pending_ids in Hnd. rewrite fmap_app in Hnd. by apply NoDup_app in Hnd as [? _].
Qed.

(** ** Arrival order *)

Lemma processQueue_trace w w' acts :
  processQueue w = (w', acts) ->
  accepted acts = [] /\ settled acts = []
  /\ requestQueue (vp w) = started acts ++ requestQueue (vp w')
  /\ suspended w' = suspended w ++ started acts
  /\ promises w' = promises w.
Proof.
  intros H. apply processQueue_spec in H as [[-> ->]|H].
  - cbn. by rewrite app_nil_r.
  - destruct H as (r & rest & Hq & _ & -> & _ & Hq' & _ & Hs & _ & Hp).
    cbn. by rewrite Hq, Hq', Hs.
Qed.

Lemma Accepted_trace r acts :
  accepted (Accepted r :: acts) = r :: accepted acts
  /\ started (Accepted r :: acts) = started acts
  /\ settled (Accepted r :: acts) = settled acts.
Proof. done. Qed.

Lemma settle_trace r o :
  accepted [settle r o] = [] /\ started [settle r o] = []
  /\ settled [settle r o] = [promise r].
Proof. by destruct o. Qed.

(** What a step accepts joins the queue at the back; what it starts
    leaves the queue at the front. *)
Lemma step_fifo w e w' acts :
  step w e = Some (w', acts) ->
  requestQueue (vp w) ++ accepted acts = started acts ++ requestQueue (vp w').
Proof.
  intros H. apply step_spec in H. destruct e as [i f|k o|].
  - destruct H as (pacts & -> & H).
    apply processQueue_trace in H as (Ha & _ & Hq & _). cbn in Hq.
    destruct (Accepted_trace {| id := i; execute := f; promise := promises w |} pacts)
      as (-> & -> & _).
    by rewrite Ha, Hq.
  - destruct H as (r & _ & -> & _ & Hq & _).
    destruct (settle_trace r o) as (-> & -> & _). by rewrite Hq, app_nil_r.
  - destruct H as (d & rest & _ & H).
    apply processQueue_trace in H as (-> & _ & Hq & _). cbn in Hq.
    by rewrite app_nil_r.
Qed.

Lemma run_fifo es w w' tr :
  run w es = Some (w', tr) ->
  requestQueue (vp w) ++ accepted tr = started tr ++ requestQueue (vp w').
Proof.
  revert w w' tr. induction es as [|e es IH]; intros w w' tr H; cbn in H.
  - inversion H; subst. cbn. by rewrite app_nil_r.
  - run_inversion H w1 acts w2 tr' E R. unfold accepted, started. rewrite !omap_app.
    fold (accepted acts) (accepted tr') (started acts) (started tr').
    rewrite app_assoc, (step_fifo _ _ _ _ E), <- !app_assoc. f_equal.
    by apply IH.
Qed.

(** Each accepted request holds the next promise. *)
Lemma step_promises w e w' acts :
  step w e = Some (w', acts) ->
  promise <$> accepted acts = seq (promises w) (length (accepted acts))
  /\ promises w' = promises w + length (accepted acts).
Proof.
  intros H. apply step_spec in H. destruct e as [i f|k o|].
  - destruct H as (pacts & -> & H).
    apply processQueue_trace in H as (Ha & _ & _ & _ & Hp). cbn in Hp.
    destruct (Accepted_trace {| id := i; execute := f; promise := promises w |} pacts)
      as (-> & _ & _).
    rewrite Ha. cbn. split; [done|lia].
  - destruct H as (r & _ & -> & _ & _ & _ & _ & _ & Hp).
    destruct (settle_trace r o) as (-> & _ & _). cbn. split; [done|lia].
  - destruct H as (d & rest & _ & H).
    apply processQueue_trace in H as (-> & _ & _ & _ & Hp). cbn in Hp.
    cbn. split; [done|lia].
Qed.

Lemma run_promises es w w' tr :
  run w es = Some (w', tr) ->
  promise <$> accepted tr = seq (promises w) (length (accepted tr))
  /\ promises w' = promises w + length (accepted tr).
Proof.
  revert w w' tr. induction es as [|e es IH]; intros w w' tr H; cbn in H.
  - inversion H; subst. cbn. split; [done|lia].
  - run_inversion H w1 acts w2 tr' E R.
    destruct (step_promises _ _ _ _ E) as [Hs1 Hp1].
    destruct (IH _ _ _ R) as [Hs2 Hp2].
    unfold accepted. rewrite omap_app. fold (accepted acts) (accepted tr').
    rewrite fmap_app, length_app, seq_app, Hs1, Hs2, Hp1. split; [done|lia].
Qed.

(** ** Nothing is lost *)

(** A started request stays suspended until the step that settles its
    promise. *)
Lemma step_conservation w e w' acts :
  step w e = Some (w', acts) ->
  (promise <$> suspended w) ++ (promise <$> started acts)
  ≡ₚ settled acts ++ (promise <$> suspended w').
Proof.
  intros H. apply step_spec in H. destruct e as [i f|k o|].
  - destruct H as (pacts & -> & H).
    apply processQueue_trace in H as (_ & Hs & _ & Hsus & _). cbn in Hsus.
    destruct (Accepted_trace {| id := i; execute := f; promise := promises w |} pacts)
      as (_ & -> & ->).
    by rewrite Hs, Hsus, fmap_app.
  - destruct H as (r & Hk & -> & _ & _ & _ & Hs & _).
    destruct (settle_trace r o) as (_ & -> & ->).
    rewrite Hs, list_fmap_delete, app_nil_r. cbn.
    apply delete_Permutation. by rewrite list_lookup_fmap, Hk.
  - destruct H as (d & rest & _ & H).
    apply processQueue_trace in H as (_ & Hs & _ & Hsus & _). cbn in Hsus.
    by rewrite Hs, Hsus, fmap_app.
Qed.

Lemma run_conservation es w w' tr :
  run w es = Some (w', tr) ->
  (promise <$> suspended w) ++ (promise <$> started tr)
  ≡ₚ settled tr ++ (promise <$> suspended w').
Proof.
  revert w w' tr. induction es as [|e es IH]; intros w w' tr H; cbn in H.
  - inversion H; subst. cbn. by rewrite app_nil_r.
  - run_inversion H w1 acts w2 tr' E R. unfold settled, started. rewrite !omap_app.
    fold (settled acts) (settled tr') (started acts) (started tr').
    rewrite fmap_app, app_assoc, (step_conservation _ _ _ _ E), <- !app_assoc.
    apply Permutation_app_head. by apply IH.
Qed.

(** ** Waiting requests are not left behind *)

(** When [processQueue] starts nothing, the active set is full or the
    queue is empty. *)
Lemma processQueue_idle w w' :
  processQueue w = (w', []) ->
  (maxConcurrent (vp w) <= Z.of_nat (size (activeRequests (vp w))))%Z
  \/ requestQueue (vp w) = [].
Proof.
  unfold processQueue. intros H.
  destruct (Z.geb_spec (Z.of_nat (size (activeRequests (vp w)))) (maxConcurrent (vp w)))
    as [Hfull|Hfree]; [left; lia|]. cbn [orb] in H.
  destruct (requestQueue (vp w)) as [|r rest]; [by right|]. cbn in H. discriminate H.
Qed.

Lemma active_are_suspended_nonempty w :
  active_are_suspended w ->
  (0 < Z.of_nat (size (activeRequests (vp w))))%Z ->
  suspended w ≠ [].
Proof.
  intros Ha Hsize Hnil.
  destruct (map_choose (activeRequests (vp w))) as (i & x & Hi).
  { apply map_size_non_empty_iff. lia. }
  specialize (Ha i (ex_intro _ x Hi)). rewrite Hnil in Ha. by apply elem_of_nil in Ha.
Qed.

Lemma processQueue_not_stranded w w' acts :
  (0 < maxConcurrent (vp w))%Z ->
  active_are_suspended w ->
  processQueue w = (w', acts) ->
  maxConcurrent (vp w') = maxConcurrent (vp w)
  /\ active_are_suspended w'
  /\ (requestQueue (vp w') ≠ [] -> suspended w' ≠ []).
Proof.
  intros HK Ha H. pose proof H as H'.
  apply processQueue_spec in H as [[-> ->]|H].
  - split; [done|]. split; [done|]. intros Hq.
    apply processQueue_idle in H' as [Hfull|Hempty]; [|done].
    apply active_are_suspended_nonempty; [done|lia].
  - destruct H as (r & rest & _ & _ & _ & Hact & _ & Hm & Hs & _).
    split; [done|]. split.
    + intros i. rewrite Hact, Hs, fmap_app, elem_of_app, lookup_insert_is_Some'.
      intros [<-|Hi]; [right; apply list_elem_of_singleton; done|left; by apply Ha].
    + intros _. rewrite Hs. by destruct (suspended w).
Qed.

Lemma step_not_stranded K w e w' acts :
  (0 < K)%Z ->
  maxConcurrent (vp w) = K /\ active_are_suspended w /\ not_stranded w ->
  step w e = Some (w', acts) ->
  maxConcurrent (vp w') = K /\ active_are_suspended w' /\ not_stranded w'.
Proof.
  intros HK (Hm & Ha & Hn) H. apply step_spec in H. destruct e as [i f|k o|].
  - destruct H as (pacts & _ & H).
    apply processQueue_not_stranded in H as (Hm' & Ha' & Hn'); cbn; [|lia|exact Ha].
    cbn in Hm'. split; [congruence|]. split; [exact Ha'|]. intros Hq. left. by apply Hn'.
  - destruct H as (r & Hk & _ & Hact & _ & Hm' & Hs & Ht & _).
    split; [congruence|]. split.
    + intros j. rewrite Hact, Hs, lookup_delete_is_Some. intros [Hne Hj].
      apply Ha in Hj. rewrite (delete_Permutation _ _ _ Hk), fmap_cons in Hj.
      apply elem_of_cons in Hj as [->|Hj]; done.
    + intros _. right. rewrite Ht. by destruct (timers w).
  - destruct H as (d & rest & _ & H).
    apply processQueue_not_stranded in H as (Hm' & Ha' & Hn'); cbn; [|lia|exact Ha].
    cbn in Hm'. split; [congruence|]. split; [exact Ha'|]. intros Hq. left. by apply Hn'.
Qed.

(** X5. With a positive bound, in every state the processor can reach a
    non-empty queue comes with a running request or a pending timer. *)
Lemma requestQueue_never_stranded K es w tr :
  (0 < K)%Z ->
  run (new_VoiceProcessor K) es = Some (w, tr) ->
  not_stranded w.
Proof.
  intros HK H.
  assert (HI : maxConcurrent (vp w) = K /\ active_are_suspended w /\ not_stranded w).
  { eapply (run_invariant
              (fun w => maxConcurrent (vp w) = K /\ active_are_suspended w /\ not_stranded w));
      [| |exact H].
    - intros w0 e w1 acts. by apply step_not_stranded.
    - split; [done|]. split.
      + intros i [x Hx]. cbn in Hx. by rewrite lookup_empty in Hx.
      + intros Hq. by cbn in Hq. }
  exact (proj2 (proj2 HI)).
Qed.

(** ** The claims *)

Lemma new_VoiceProcessor_ids_consistent K : ids_consistent (new_VoiceProcessor K).
Proof. split; cbn; [apply NoDup_nil_2|apply dom_empty_L]. Qed.

(** C1. With a bound [K] that is not negative, in every state the
    processor can reach the active set has at most [K] entries; and as
    long as no two requests were given the same id, its entries are
    exactly the calls of [execute] still running, so these are at most
    [K] too. *)
Theorem activeRequests_within_maxConcurrent K es w tr :
  (0 <= K)%Z ->
  run (new_VoiceProcessor K) es = Some (w, tr) ->
  qs_maxConcurrent (getQueueStatus (vp w)) = K
  /\ (Z.of_nat (qs_activeRequests (getQueueStatus (vp w))) <= K)%Z
  /\ (NoDup (ids_of es) ->
      length (suspended w) = size (activeRequests (vp w))
      /\ (Z.of_nat (length (suspended w)) <= K)%Z).
Proof.
  intros HK H.
  assert (HB : within_bound K w).
  { eapply (run_invariant (within_bound K)); [| |exact H].
    - intros w0 e w1 acts. apply step_within_bound.
    - split; [done|]. cbn. rewrite map_size_empty. lia. }
  destruct HB as [HB1 HB2]. cbn [getQueueStatus qs_maxConcurrent qs_activeRequests].
  split; [exact HB1|]. split; [exact HB2|].
  intros Hnd.
  assert (HJ : ids_consistent w).
  { eapply run_ids_consistent; [apply new_VoiceProcessor_ids_consistent|exact Hnd| |exact H].
    intros i _ Hin. cbn in Hin. by apply elem_of_nil in Hin. }
  apply ids_consistent_size in HJ. split; [exact HJ|]. by rewrite HJ.
Qed.

Lemma step_started w e w' acts r :
  step w e = Some (w', acts) -> Started r ∈ acts -> started acts = [r].
Proof.
  intros H Hin. apply step_spec in H. destruct e as [i f|k o|].
  - destruct H as (pacts & -> & H).
    apply elem_of_cons in Hin as [Hin|Hin]; [discriminate|].
    apply processQueue_spec in H as [[_ ->]|H]; [by apply elem_of_nil in Hin|].
    destruct H as (r' & rest & _ & _ & -> & _).
    apply list_elem_of_singleton in Hin. by inversion Hin.
  - destruct H as (r' & _ & -> & _).
    apply list_elem_of_singleton in Hin. by destruct o.
  - destruct H as (d & rest & _ & H).
    apply processQueue_spec in H as [[_ ->]|H]; [by apply elem_of_nil in Hin|].
    destruct H as (r' & rest' & _ & _ & -> & _).
    apply list_elem_of_singleton in Hin. by inversion Hin.
Qed.

(** C2. The requests started so far are, in that order, the first of
    the requests accepted so far, and the queue holds the rest in
    arrival order. Hence if [A] arrived before [B] and [B] has been
    started, [A] was started earlier; and a step that starts a request
    starts the oldest one waiting. *)
Theorem requestQueue_dispatches_in_arrival_order K es w tr :
  run (new_VoiceProcessor K) es = Some (w, tr) ->
  accepted tr = started tr ++ requestQueue (vp w)
  /\ NoDup (accepted tr)
  /\ (forall i j A B,
        i < j -> accepted tr !! i = Some A -> accepted tr !! j = Some B ->
        B ∈ started tr ->
        started tr !! i = Some A /\ started tr !! j = Some B)
  /\ (forall e w' acts r,
        step w e = Some (w', acts) -> Started r ∈ acts ->
        requestQueue (vp w) ++ accepted acts = r :: requestQueue (vp w')).
Proof.
  intros H.
  pose proof (run_fifo _ _ _ _ H) as Hfifo. cbn in Hfifo.
  assert (Hnd : NoDup (accepted tr)).
  { destruct (run_promises _ _ _ _ H) as [Hseq _].
    apply (NoDup_fmap_1 promise). rewrite Hseq. apply NoDup_seq. }
  split; [exact Hfifo|]. split; [exact Hnd|]. split.
  - intros i j A B Hij HA HB Hin.
    apply list_elem_of_lookup in Hin as [j' Hj'].
    assert (j' = j) as ->.
    { eapply NoDup_lookup; [exact Hnd| |exact HB].
      rewrite Hfifo. by apply lookup_app_l_Some. }
    split; [|exact Hj'].
    apply lookup_lt_Some in Hj'.
    rewrite Hfifo, lookup_app_l in HA by lia. exact HA.
  - intros e w' acts r Hstep Hin.
    rewrite (step_fifo _ _ _ _ Hstep), (step_started _ _ _ _ _ Hstep Hin). done.
Qed.

(** The rest of a run after one step. *)
Lemma run_cons w e es w1 acts :
  step w e = Some (w1, acts) ->
  run w (e :: es) = (fun '(w2, tr) => (w2, acts ++ tr)) <$> run w1 es.
Proof. intros H. cbn [run]. rewrite H. by destruct (run w1 es) as [[]|]. Qed.

(** C3. When [execute] fails, the only thing shown is the rejection of
    that request's own promise with that error; its entry leaves the
    active set; the queue is untouched and a timer for the next dispatch
    is set; and the state left behind is the state a success would have
    left, so whatever is enqueued, started or settled afterwards goes the
    same way in both cases. *)
Theorem failure_rejects_only_own_promise w k r error :
  suspended w !! k = Some r ->
  exists w',
    step w (ExecuteEnds k (Failed error)) = Some (w', [Rejected (promise r) error])
    /\ activeRequests (vp w') = delete (id r) (activeRequests (vp w))
    /\ activeRequests (vp w') !! id r = None
    /\ requestQueue (vp w') = requestQueue (vp w)
    /\ suspended w' = delete k (suspended w)
    /\ timers w' = timers w ++ [100%Z]
    /\ (forall result,
          step w (ExecuteEnds k (Fulfilled result))
          = Some (w', [Resolved (promise r) result]))
    /\ (forall result es,
          run w (ExecuteEnds k (Failed error) :: es)
          = (fun '(w2, tr) => (w2, [Rejected (promise r) error] ++ tr)) <$> run w' es
          /\ run w (ExecuteEnds k (Fulfilled result) :: es)
            = (fun '(w2, tr) => (w2, [Resolved (promise r) result] ++ tr)) <$> run w' es).
Proof.
  intros Hk.
  set (w' := {| vp := {| activeRequests := delete (id r) (activeRequests (vp w));
                         requestQueue := requestQueue (vp w);
                         maxConcurrent := maxConcurrent (vp w) |};
                suspended := delete k (suspended w);
                timers := timers w ++ [100%Z];
                promises := promises w |}).
  assert (SF : forall x,
    step w (ExecuteEnds k (Failed x)) = Some (w', [Rejected (promise r) x])).
  { intros x. cbn [step]. rewrite Hk. reflexivity. }
  assert (SS : forall x,
    step w (ExecuteEnds k (Fulfilled x)) = Some (w', [Resolved (promise r) x])).
  { intros x. cbn [step]. rewrite Hk. reflexivity. }
  exists w'. split; [apply SF|]. split; [reflexivity|].
  split; [apply lookup_delete_eq|]. do 3 (split; [reflexivity|]).
  split; [exact SS|].
  intros result es. split; apply run_cons; [apply SF|apply SS].
Qed.

(** C7. In every state the processor can reach, a submission is taken:
    the new request is appended to the queue (and, like any head of the
    queue, may be started at once); every request accepted so far is
    queued, running or settled, each exactly once; and when the call of
    [execute] of a running request ends, that request's promise is
    resolved with the result or rejected with the error. *)
Theorem queueRequest_accepts_and_settles K es w tr :
  run (new_VoiceProcessor K) es = Some (w, tr) ->
  (forall requestId executeFunction,
      let r := {| id := requestId; execute := executeFunction; promise := promises w |} in
      exists w' acts,
        step w (Enqueue requestId executeFunction) = Some (w', Accepted r :: acts)
        /\ requestQueue (vp w) ++ [r] = started acts ++ requestQueue (vp w'))
  /\ NoDup (promise <$> accepted tr)
  /\ promise <$> accepted tr
     ≡ₚ settled tr ++ (promise <$> suspended w) ++ (promise <$> requestQueue (vp w))
  /\ (forall k r,
        suspended w !! k = Some r ->
        (forall result, exists w',
            step w (ExecuteEnds k (Fulfilled result))
            = Some (w', [Resolved (promise r) result]))
        /\ (forall error, exists w',
              step w (ExecuteEnds k (Failed error))
              = Some (w', [Rejected (promise r) error]))).
Proof.
  intros H. split; [|split; [|split]].
  - intros requestId executeFunction. cbv zeta.
    destruct (step w (Enqueue requestId executeFunction)) as [[w' acts]|] eqn:E;
      [|discriminate].
    pose proof (step_fifo _ _ _ _ E) as Hf.
    apply step_spec in E as (pacts & -> & HP).
    apply processQueue_trace in HP as (Ha & _).
    exists w', pacts. split; [done|].
    by rewrite (proj1 (Accepted_trace _ pacts)),
         (proj1 (proj2 (Accepted_trace _ pacts))), Ha in Hf.
  - destruct (run_promises _ _ _ _ H) as [-> _]. apply NoDup_seq.
  - pose proof (run_fifo _ _ _ _ H) as Hfifo. cbn in Hfifo.
    pose proof (run_conservation _ _ _ _ H) as Hcons. cbn in Hcons.
    by rewrite Hfifo, fmap_app, Hcons, <- app_assoc.
  - intros k r Hk. split; intros x; eexists; cbn [step]; rewrite Hk; reflexivity.
Qed.

(** C9. When a running request settles, the same step deletes its entry
    from the active set and adds exactly one timer, of 100 ms; it starts
    nothing and leaves the queue as it is. The dispatch loop then runs
    once, when that timer does. *)
Theorem settlement_defers_next_dispatch w k r o :
  suspended w !! k = Some r ->
  exists w',
    step w (ExecuteEnds k o) = Some (w', [settle r o])
    /\ started [settle r o] = []
    /\ activeRequests (vp w') = delete (id r) (activeRequests (vp w))
    /\ requestQueue (vp w') = requestQueue (vp w)
    /\ suspended w' = delete k (suspended w)
    /\ timers w' = timers w ++ [100%Z]
    /\ (forall d rest,
          timers w' = d :: rest ->
          step w' TimerRuns
          = Some (processQueue {| vp := vp w'; suspended := suspended w';
                                  timers := rest; promises := promises w' |})).
Proof.
  intros Hk. eexists. split; [cbn [step]; rewrite Hk; reflexivity|].
  split; [by destruct o|]. cbn. do 4 (split; [done|]).
  intros d rest ->. reflexivity.
Qed.

End Dispatcher.

(** ** The theorems at the sample inputs *)

Lemma activeRequests_within_maxConcurrent_witness :
  exists w tr,
    run (new_VoiceProcessor 2) sample_events = Some (w, tr)
    /\ qs_maxConcurrent (getQueueStatus (vp w)) = 2%Z
    /\ (Z.of_nat (qs_activeRequests (getQueueStatus (vp w))) <= 2)%Z.
Proof.
  assert (H0 : (0 <= 2)%Z) by lia.
  destruct (run (new_VoiceProcessor 2) sample_events) as [[w tr]|] eqn:E;
    [|vm_compute in E; discriminate E].
  exists w, tr. split; [reflexivity|].
  destruct (activeRequests_within_maxConcurrent 2 sample_events w tr H0 E)
    as (H1 & H2 & _).
  split; [exact H1 | exact H2].
Defined.

Lemma requestQueue_dispatches_in_arrival_order_witness :
  exists w tr,
    run (new_VoiceProcessor 2) sample_events = Some (w, tr)
    /\ accepted tr = started tr ++ requestQueue (vp w).
Proof.
  destruct (run (new_VoiceProcessor 2) sample_events) as [[w tr]|] eqn:E;
    [|vm_compute in E; discriminate E].
  exists w, tr. split; [reflexivity|].
  exact (proj1 (requestQueue_dispatches_in_arrival_order 2 sample_events w tr E)).
Defined.

Lemma failure_rejects_only_own_promise_witness :
  suspended sample_world !! 0 = Some sample_request
  /\ exists w',
      step sample_world (ExecuteEnds 0 (Failed (VString "boom")))
      = Some (w', [Rejected 0 (VString "boom")])
      /\ activeRequests (vp w') !! "req-1" = None
      /\ requestQueue (vp w') = requestQueue (vp sample_world).
Proof.
  assert (H : suspended sample_world !! 0 = Some sample_request) by reflexivity.
  split; [exact H|].
  destruct (failure_rejects_only_own_promise sample_world 0 sample_request
              (VString "boom") H) as (w' & H1 & _ & H2 & H3 & _).
  exists w'. split; [exact H1|]. split; [exact H2 | exact H3].
Defined.

Lemma queueRequest_accepts_and_settles_witness :
  exists w tr,
    run (new_VoiceProcessor 2) sample_events = Some (w, tr)
    /\ promise <$> accepted tr
       ≡ₚ settled tr ++ (promise <$> suspended w) ++ (promise <$> requestQueue (vp w)).
Proof.
  destruct (run (new_VoiceProcessor 2) sample_events) as [[w tr]|] eqn:E;
    [|vm_compute in E; discriminate E].
  exists w, tr. split; [reflexivity|].
  destruct (queueRequest_accepts_and_settles 2 sample_events w tr E)
    as (_ & _ & H & _).
  exact H.
Defined.

Lemma settlement_defers_next_dispatch_witness :
  suspended sample_world !! 0 = Some sample_request
  /\ exists w',
      step sample_world (ExecuteEnds 0 (Fulfilled VNull)) = Some (w', [Resolved 0 VNull])
      /\ timers w' = [100%Z]
      /\ requestQueue (vp w') = requestQueue (vp sample_world).
Proof.
  assert (H : suspended sample_world !! 0 = Some sample_request) by reflexivity.
  split; [exact H|].
  destruct (settlement_defers_next_dispatch sample_world 0 sample_request
              (Fulfilled VNull) H) as (w' & H1 & _ & _ & H2 & _ & H3 & _).
  exists w'. split; [exact H1|]. split; [exact H3 | exact H2].
Defined.

(** The scenario of five tasks and two slots: all five promises are
    resolved, in arrival order here, and the processor ends empty. *)
Example five_tasks_all_resolve :
  (fun '(w, tr) =>
     (settled tr, promise <$> started tr,
      size (activeRequests (vp w)), length (requestQueue (vp w)),
      length (suspended w), timers w))
    <$> run (new_VoiceProcessor 2) five_tasks
  = Some ([0; 1; 2; 3; 4], [0; 1; 2; 3; 4], 0, 0, 0, []).
Proof. vm_compute. reflexivity. Qed.

(** * Further properties of the request queue *)

Section DispatcherFurther.

Implicit Types (w : World) (r : request) (e : event) (es : list event)
  (acts tr : list action).

(** Two runs in a row are one run. *)
Lemma run_app w es1 es2 :
  run w (es1 ++ es2)
  = match run w es1 with
    | Some (w1, tr1) => (fun '(w2, tr2) => (w2, tr1 ++ tr2)) <$> run w1 es2
    | None => None
    end.
Proof.
  revert w. induction es1 as [|e es1 IH]; intros w.
  - cbn. by destruct (run w es2) as [[]|].
  - cbn [app run]. destruct (step w e) as [[w1 acts]|]; [|done].
    rewrite IH. destruct (run w1 es1) as [[w2 tr1]|]; [|done].
    destruct (run w2 es2) as [[w3 tr2]|]; [|done]. cbn. by rewrite app_assoc.
Qed.

Lemma run_healthy K es w tr :
  (0 < K)%Z -> run (new_VoiceProcessor K) es = Some (w, tr) -> healthy K w.
Proof.
  intros HK H. eapply (run_invariant (healthy K)); [| |exact H].
  - intros w0 e w1 acts. by apply step_not_stranded.
  - split; [done|]. split.
    + intros i [x Hx]. cbn in Hx. by rewrite lookup_empty in Hx.
    + intros Hq. by cbn in Hq.
Qed.

(** With nothing running, the active set is empty. *)
Lemma active_are_suspended_empty w :
  active_are_suspended w -> suspended w = [] -> activeRequests (vp w) = ∅.
Proof.
  intros Ha Hs. destruct (map_choose_or_empty (activeRequests (vp w))) as [(i & x & Hi)|]; [|done].
  specialize (Ha i (ex_intro _ x Hi)). rewrite Hs in Ha. by apply elem_of_nil in Ha.
Qed.

(** From a healthy state, letting the running calls end and the timers
    run, with no new submission, empties the processor. *)
Lemma drain_exists K :
  (0 < K)%Z ->
  forall n w,
    healthy K w ->
    2 * length (requestQueue (vp w)) + length (suspended w) <= n ->
    exists es w' tr,
      run w es = Some (w', tr)
      /\ ids_of es = [] /\ accepted tr = []
      /\ requestQueue (vp w') = [] /\ suspended w' = [].
Proof.
  intros HK n. induction n as [|n IH]; intros w HW Hn.
  - exists [], w, []. cbn.
    destruct (requestQueue (vp w)), (suspended w); cbn in Hn; try lia. done.
  - destruct (suspended w) as [|r s'] eqn:Hs.
    + destruct (requestQueue (vp w)) as [|r0 rest] eqn:Hq.
      { exists [], w, []. cbn. by rewrite Hq, Hs. }
      destruct HW as (Hm & Ha & Hst).
      destruct (Hst ltac:(by rewrite Hq)) as [Hne|Hne]; [by rewrite Hs in Hne|].
      destruct (timers w) as [|d ts] eqn:Ht; [done|].
      destruct (step w TimerRuns) as [[w1 acts]|] eqn:E;
        [|cbn in E; rewrite Ht in E; discriminate E].
      pose proof (step_not_stranded K _ _ _ _ HK (conj Hm (conj Ha Hst)) E) as HW1.
      pose proof E as E'. apply step_spec in E' as (d' & ts' & Ht' & HP).
      pose proof HP as HP'.
      apply processQueue_spec in HP' as [[-> ->]|HP'].
      { apply processQueue_idle in HP as [Hfull|Hempty].
        - cbn in Hfull.
          rewrite (active_are_suspended_empty w Ha Hs), map_size_empty in Hfull. lia.
        - cbn in Hempty. by rewrite Hq in Hempty. }
      destruct HP' as (r1 & rest1 & Hq1 & _ & -> & _ & Hq' & _ & Hs' & _).
      cbn in Hq1, Hs'. rewrite Hq in Hq1. injection Hq1 as <- <-.
      destruct (IH w1 HW1) as (es & w' & tr & Hrun & Hids & Hacc & Hq2 & Hs2).
      { rewrite Hq', Hs', Hs. cbn in *. lia. }
      exists (TimerRuns :: es), w', ([Started r0] ++ tr).
      split; [by rewrite (run_cons _ _ _ _ _ E), Hrun|].
      split; [exact Hids|]. split; [exact Hacc|]. by split.
    + destruct (step w (ExecuteEnds 0 (Fulfilled VUndefined))) as [[w1 acts]|] eqn:E;
        [|cbn in E; rewrite Hs in E; discriminate E].
      pose proof (step_not_stranded K _ _ _ _ HK HW E) as HW1.
      pose proof E as E'. apply step_spec in E' as (r' & Hk & -> & _ & Hq' & _ & Hs' & _).
      destruct (IH w1 HW1) as (es & w' & tr & Hrun & Hids & Hacc & Hq2 & Hs2).
      { rewrite Hq', Hs', Hs. cbn in *. lia. }
      exists (ExecuteEnds 0 (Fulfilled VUndefined) :: es), w',
        ([settle r' (Fulfilled VUndefined)] ++ tr).
      split; [by rewrite (run_cons _ _ _ _ _ E), Hrun|].
      split; [exact Hids|]. split; [exact Hacc|]. by split.
Qed.

(** X1. With a positive bound, no accepted request is ever stuck: from
    every state the processor can reach there is a way on, made only of
    running calls ending and timers running, after which the queue and
    the set of running calls are empty and the settled promises are
    exactly the promises of the requests accepted. *)
Theorem every_accepted_request_can_settle K es w tr :
  (0 < K)%Z ->
  run (new_VoiceProcessor K) es = Some (w, tr) ->
  exists es' w' tr',
    run w es' = Some (w', tr')
    /\ ids_of es' = []
    /\ requestQueue (vp w') = [] /\ suspended w' = []
    /\ promise <$> accepted tr ≡ₚ settled (tr ++ tr').
Proof.
  intros HK H. pose proof (run_healthy _ _ _ _ HK H) as HW.
  destruct (drain_exists K HK _ w HW (Nat.le_refl _))
    as (es' & w' & tr' & Hrun & Hids & Hacc & Hq & Hs).
  exists es', w', tr'. do 4 (split; [done|]).
  assert (Hall : run (new_VoiceProcessor K) (es ++ es') = Some (w', tr ++ tr')).
  { by rewrite run_app, H, Hrun. }
  pose proof (run_fifo _ _ _ _ Hall) as Hfifo. cbn in Hfifo.
  pose proof (run_conservation _ _ _ _ Hall) as Hcons. cbn in Hcons.
  rewrite Hq, app_nil_r in Hfifo. rewrite Hs, app_nil_r in Hcons.
  rewrite <- Hcons, <- Hfifo. unfold accepted. rewrite omap_app.
  fold (accepted tr) (accepted tr'). by rewrite Hacc, app_nil_r.
Qed.

(** X2. The snapshot of [getQueueStatus] accounts for every request that
    is not settled: as long as request ids are distinct, the requests
    accepted so far are those settled, those counted active and those
    counted queued. *)
Theorem getQueueStatus_accounts_for_unsettled K es w tr :
  run (new_VoiceProcessor K) es = Some (w, tr) ->
  NoDup (ids_of es) ->
  length (accepted tr)
  = length (settled tr)
    + qs_activeRequests (getQueueStatus (vp w))
    + qs_queuedRequests (getQueueStatus (vp w)).
Proof.
  intros H Hnd. cbn [getQueueStatus qs_activeRequests qs_queuedRequests].
  pose proof (run_fifo _ _ _ _ H) as Hfifo. cbn in Hfifo.
  pose proof (run_conservation _ _ _ _ H) as Hcons. cbn in Hcons.
  apply Permutation_length in Hcons. rewrite length_app, !length_fmap in Hcons.
  assert (HJ : ids_consistent w).
  { eapply run_ids_consistent; [apply new_VoiceProcessor_ids_consistent|exact Hnd| |exact H].
    intros i _ Hin. cbn in Hin. by apply elem_of_nil in Hin. }
  apply ids_consistent_size in HJ.
  rewrite Hfifo, length_app. lia.
Qed.

Lemma enqueue_when_full w requestId executeFunction :
  (maxConcurrent (vp w) <= Z.of_nat (size (activeRequests (vp w))))%Z ->
  exists w',
    step w (Enqueue requestId executeFunction)
    = Some (w', [Accepted {| id := requestId; execute := executeFunction;
                             promise := promises w |}])
    /\ requestQueue (vp w')
       = requestQueue (vp w)
         ++ [{| id := requestId; execute := executeFunction; promise := promises w |}]
    /\ activeRequests (vp w') = activeRequests (vp w)
    /\ suspended w' = suspended w.
Proof.
  intros HK. eexists. cbn [step]. unfold queueRequest, processQueue.
  cbn [vp activeRequests maxConcurrent].
  destruct (Z.geb_spec (Z.of_nat (size (activeRequests (vp w)))) (maxConcurrent (vp w)));
    [|lia].
  cbn [orb]. done.
Qed.

Lemma enqueue_with_free_slot w requestId executeFunction :
  (Z.of_nat (size (activeRequests (vp w))) < maxConcurrent (vp w))%Z ->
  exists w' first rest,
    requestQueue (vp w)
    ++ [{| id := requestId; execute := executeFunction; promise := promises w |}]
    = first :: rest
    /\ step w (Enqueue requestId executeFunction)
       = Some (w', [Accepted {| id := requestId; execute := executeFunction;
                                promise := promises w |}; Started first])
    /\ requestQueue (vp w') = rest
    /\ activeRequests (vp w') = <[id first := first]> (activeRequests (vp w))
    /\ suspended w' = suspended w ++ [first]
    /\ maxConcurrent (vp w') = maxConcurrent (vp w).
Proof.
  intros HK.
  destruct (requestQueue (vp w) ++
            [{| id := requestId; execute := executeFunction; promise := promises w |}])
    as [|first rest] eqn:Hq.
  { by destruct (requestQueue (vp w)). }
  eexists _, first, rest. split; [done|].
  cbn [step]. unfold queueRequest, processQueue.
  cbn [vp activeRequests maxConcurrent requestQueue].
  destruct (Z.geb_spec (Z.of_nat (size (activeRequests (vp w)))) (maxConcurrent (vp w)));
    [lia|].
  rewrite Hq. cbn. done.
Qed.

(** X3. What a submission starts. With the active set full, nothing: the
    new request joins the back of the queue. With a free slot, exactly
    one request: the head of the queue as it is once the new request has
    joined, so the new request itself only when nobody was waiting. *)
Theorem queueRequest_starts_oldest_waiting w requestId executeFunction :
  let r := {| id := requestId; execute := executeFunction; promise := promises w |} in
  ((maxConcurrent (vp w) <= Z.of_nat (size (activeRequests (vp w))))%Z ->
   exists w',
     step w (Enqueue requestId executeFunction) = Some (w', [Accepted r])
     /\ requestQueue (vp w') = requestQueue (vp w) ++ [r]
     /\ activeRequests (vp w') = activeRequests (vp w)
     /\ suspended w' = suspended w)
  /\ ((Z.of_nat (size (activeRequests (vp w))) < maxConcurrent (vp w))%Z ->
      exists w' first rest,
        requestQueue (vp w) ++ [r] = first :: rest
        /\ step w (Enqueue requestId executeFunction)
           = Some (w', [Accepted r; Started first])
        /\ requestQueue (vp w') = rest
        /\ activeRequests (vp w') = <[id first := first]> (activeRequests (vp w))
        /\ suspended w' = suspended w ++ [first]).
Proof.
  cbv zeta. split; intros HK.
  - by apply enqueue_when_full.
  - destruct (enqueue_with_free_slot w requestId executeFunction HK)
      as (w' & first & rest & H1 & H2 & H3 & H4 & H5 & _).
    by exists w', first, rest.
Qed.

(** Submissions that all carry the same id, with a bound of two or more:
    each is started at once. *)
Lemma run_same_id K i (fs : list nat) :
  (2 <= K)%Z ->
  forall w,
    maxConcurrent (vp w) = K ->
    requestQueue (vp w) = [] ->
    dom (activeRequests (vp w)) ⊆ {[ i ]} ->
    exists w' tr,
      run w (Enqueue i <$> fs) = Some (w', tr)
      /\ maxConcurrent (vp w') = K
      /\ requestQueue (vp w') = []
      /\ dom (activeRequests (vp w')) ⊆ {[ i ]}
      /\ length (suspended w') = length (suspended w) + length fs.
Proof.
  intros HK. induction fs as [|f fs IH]; intros w Hm Hq Hd.
  - exists w, []. cbn. repeat split; try done; lia.
  - assert (Hsize : size (activeRequests (vp w)) <= 1).
    { rewrite <- size_dom. etrans; [apply (subseteq_size _ _ Hd)|]. by rewrite size_singleton. }
    destruct (enqueue_with_free_slot w i f) as (w1 & first & rest & Hq1 & E & Hq' & Ha & Hs & Hm1);
      [lia|].
    rewrite Hq in Hq1. cbn in Hq1. injection Hq1 as <- <-.
    destruct (IH w1) as (w' & tr & Hrun & Hm' & Hq2 & Hd' & Hlen).
    + congruence.
    + done.
    + rewrite Ha, dom_insert_L. cbn.
      apply union_subseteq. split; [done|exact Hd].
    + exists w', ([Accepted {| id := i; execute := f; promise := promises w |};
                   Started {| id := i; execute := f; promise := promises w |}] ++ tr).
      split; [by rewrite fmap_cons, (run_cons _ _ _ _ _ E), Hrun|].
      do 3 (split; [done|]). rewrite Hlen, Hs, length_app. cbn. lia.
Qed.

(** X4. The bound counts ids, not calls. With a bound of two or more,
    submissions that all carry one id are all started at once, however
    many they are: each overwrites the one entry of the active set, so
    the set never fills. *)
Theorem same_id_requests_all_run K i (fs : list nat) :
  (2 <= K)%Z ->
  exists w tr,
    run (new_VoiceProcessor K) (Enqueue i <$> fs) = Some (w, tr)
    /\ length (suspended w) = length fs
    /\ length (started tr) = length fs
    /\ requestQueue (vp w) = []
    /\ size (activeRequests (vp w)) <= 1.
Proof.
  intros HK.
  destruct (run_same_id K i fs HK (new_VoiceProcessor K)) as (w & tr & H & _ & Hq & Hd & Hlen);
    [done|done|by cbn; rewrite dom_empty_L|].
  exists w, tr. split; [exact H|]. split; [exact Hlen|].
  pose proof (run_fifo _ _ _ _ H) as Hfifo. cbn in Hfifo. rewrite Hq, app_nil_r in Hfifo.
  split.
  { rewrite <- Hfifo.
    assert (Hacc : forall es w0 w1 tr1, run w0 es = Some (w1, tr1) ->
                     length (accepted tr1) = length (ids_of es)).
    { intros es. induction es as [|e es IHes]; intros w0 w1 tr1 Hr.
      - cbn in Hr. by inversion Hr.
      - run_inversion Hr w2 acts w3 tr2 E R.
        unfold accepted. rewrite omap_app. fold (accepted acts) (accepted tr2).
        rewrite length_app, (IHes _ _ _ R).
        destruct (step_promises _ _ _ _ E) as [_ Hp].
        apply step_spec in E. destruct e as [i0 f0|k o|].
        + destruct E as (pacts & -> & HP). apply processQueue_trace in HP as (Ha & _).
          rewrite (proj1 (Accepted_trace _ pacts)), Ha. done.
        + destruct E as (r & _ & -> & _). by destruct (settle_trace r o) as (-> & _).
        + destruct E as (d & rest & _ & HP). apply processQueue_trace in HP as (-> & _). done. }
    rewrite (Hacc _ _ _ _ H). clear.
    induction fs as [|f fs IH]; [done|].
    change (S (length (ids_of (Enqueue i <$> fs))) = S (length fs)). by rewrite IH. }
  split; [exact Hq|].
  rewrite <- size_dom. etrans; [apply (subseteq_size _ _ Hd)|]. by rewrite size_singleton.
Qed.

End DispatcherFurther.

Lemma every_accepted_request_can_settle_witness :
  exists w tr es' w' tr',
    run (new_VoiceProcessor 2) sample_events = Some (w, tr)
    /\ run w es' = Some (w', tr')
    /\ requestQueue (vp w') = [] /\ suspended w' = [].
Proof.
  assert (H0 : (0 < 2)%Z) by lia.
  destruct (run (new_VoiceProcessor 2) sample_events) as [[w tr]|] eqn:E;
    [|vm_compute in E; discriminate E].
  destruct (every_accepted_request_can_settle 2 sample_events w tr H0 E)
    as (es' & w' & tr' & H1 & _ & H2 & H3 & _).
  exists w, tr, es', w', tr'. split; [reflexivity|]. split; [exact H1|]. by split.
Defined.

Lemma getQueueStatus_accounts_for_unsettled_witness :
  exists w tr,
    run (new_VoiceProcessor 2) sample_events = Some (w, tr)
    /\ NoDup (ids_of sample_events)
    /\ length (accepted tr)
       = length (settled tr)
         + qs_activeRequests (getQueueStatus (vp w))
         + qs_queuedRequests (getQueueStatus (vp w)).
Proof.
  assert (Hnd : NoDup (ids_of sample_events)).
  { change (NoDup ["req-1"; "req-2"; "req-3"; "req-4"]).
    repeat (apply NoDup_cons; split; [intros Hin; absurd_elem_of Hin|]).
    apply NoDup_nil_2. }
  destruct (run (new_VoiceProcessor 2) sample_events) as [[w tr]|] eqn:E;
    [|vm_compute in E; discriminate E].
  exists w, tr. split; [reflexivity|]. split; [exact Hnd|].
  exact (getQueueStatus_accounts_for_unsettled 2 sample_events w tr E Hnd).
Defined.

Lemma same_id_requests_all_run_witness :
  exists w tr,
    run (new_VoiceProcessor 2) (Enqueue "req-1" <$> [0; 1; 2]) = Some (w, tr)
    /\ length (suspended w) = 3
    /\ size (activeRequests (vp w)) <= 1.
Proof.
  assert (H2 : (2 <= 2)%Z) by lia.
  destruct (same_id_requests_all_run 2 "req-1" [0; 1; 2] H2)
    as (w & tr & H & Hs & _ & _ & Ha).
  exists w, tr. split; [exact H|]. split; [exact Hs | exact Ha].
Defined.

Lemma requestQueue_never_stranded_witness :
  exists w tr,
    run (new_VoiceProcessor 2) sample_events = Some (w, tr)
    /\ (requestQueue (vp w) = [] \/ suspended w ≠ [] \/ timers w ≠ []).
Proof.
  assert (H0 : (0 < 2)%Z) by lia.
  destruct (run (new_VoiceProcessor 2) sample_events) as [[w tr]|] eqn:E;
    [|vm_compute in E; discriminate E].
  exists w, tr. split; [reflexivity|].
  pose proof (requestQueue_never_stranded 2 sample_events w tr H0 E) as H.
  destruct (requestQueue (vp w)) as [|r q] eqn:Hq; [by left|].
  right. apply H. by rewrite Hq.
Defined.

(** * Further properties of [VoiceConfig] *)

Section Presets.

Variable rt : Runtime.

Lemma lookup_settings_object a b c sb :
  settings_object a b c sb !! "stability" = Some (VNumber a)
  /\ settings_object a b c sb !! "similarityBoost" = Some (VNumber b)
  /\ settings_object a b c sb !! "style" = Some (VNumber c)
  /\ settings_object a b c sb !! "speakerBoost" = Some (VBool sb).
Proof. repeat split; reflexivity. Qed.

Lemma lookup_settings_object_other a b c sb k :
  k ∉ normalized_fields -> settings_object a b c sb !! k = None.
Proof.
  unfold normalized_fields, settings_object. intros H.
  rewrite !lookup_insert_ne by set_solver.
  apply lookup_singleton_ne. set_solver.
Qed.

(** A complete settings object whose numbers the clamp leaves alone is
    left alone by the normaliser. *)
Lemma normalize_settings_object env a b c sb :
  clamp01 rt (VNumber a) = VNumber a ->
  clamp01 rt (VNumber b) = VNumber b ->
  clamp01 rt (VNumber c) = VNumber c ->
  normalize rt env (settings_object a b c sb) = settings_object a b c sb.
Proof.
  intros Ha Hb Hc. destruct (lookup_settings_object a b c sb) as (L1 & L2 & L3 & L4).
  unfold normalize. apply map_eq. intros k.
  rewrite validateVoiceSettings_lookup. cbv zeta.
  repeat case_decide; subst.
  - rewrite get_union_l by (rewrite L4; eauto). unfold get. by rewrite L4.
  - rewrite get_union_l by (rewrite L3; eauto). unfold get. by rewrite L3, Hc.
  - rewrite get_union_l by (rewrite L2; eauto). unfold get. by rewrite L2, Hb.
  - rewrite get_union_l by (rewrite L1; eauto). unfold get. by rewrite L1, Ha.
  - apply lookup_union_l, lookup_initVoiceSettings.
    unfold normalized_fields. intros Hin.
    repeat (apply elem_of_cons in Hin as [Hin | Hin]; [congruence|]).
    by apply elem_of_nil in Hin.
Qed.

(** X6. Every entry of the presets table is returned under its name, has
    its three numbers within [0,1], and is a fixed point of the
    normaliser: sending a preset through [validateVoiceSettings] changes
    nothing, whatever the configured defaults. *)
Theorem getVoicePreset_is_normalized env default name p :
  own_property presets name = Some p ->
  getVoicePreset default name = SettingsObject p
  /\ normalize rt env p = p
  /\ in_range (get p "stability") = true
  /\ in_range (get p "similarityBoost") = true
  /\ in_range (get p "style") = true.
Proof.
  intros H. split; [unfold getVoicePreset; by rewrite H|].
  unfold presets in H. cbn [own_property] in H.
  repeat match type of H with
         | (if ?b then _ else _) = _ =>
             destruct b; [injection H as <-;
                          split; [by apply normalize_settings_object|];
                          repeat split; reflexivity|]
         end.
  discriminate H.
Qed.


End Presets.

Lemma getVoicePreset_is_normalized_witness :
  own_property presets "stable" = Some (settings_object n_0_9 n_0_6 n_0_1 false)
  /\ normalize runtime_numeric_only env_unset (settings_object n_0_9 n_0_6 n_0_1 false)
     = settings_object n_0_9 n_0_6 n_0_1 false.
Proof.
  assert (H : own_property presets "stable" = Some (settings_object n_0_9 n_0_6 n_0_1 false))
    by reflexivity.
  split; [exact H|].
  exact (proj1 (proj2 (getVoicePreset_is_normalized runtime_numeric_only env_unset ∅
                         "stable" _ H))).
Defined.


Section Construction.

Variable parseInt : string -> number.

Lemma SFcompare_antisym a b : SFcompare b a = option_map CompOpp (SFcompare a b).
Proof.
  destruct a as [[]|[]| |[] m e], b as [[]|[]| |[] m' e']; try reflexivity;
    cbn; rewrite (Z.compare_antisym e e'); destruct (e ?= e')%Z; cbn; try reflexivity;
    assert (A : Pos.compare_cont Eq m' m = CompOpp (Pos.compare_cont Eq m m'))
      by (symmetry; apply (Pos.compare_cont_antisym m m' Eq));
    rewrite A; destruct (Pos.compare_cont Eq m m'); reflexivity.
Qed.

(** Between two numbers neither of which is NaN, "not less than" is
    "greater than or equal". *)
Lemma SFltb_false_SFleb a b :
  is_nan a = false -> is_nan b = false -> SFltb a b = false -> SFleb b a = true.
Proof.
  unfold SFltb, SFleb. rewrite (SFcompare_antisym a b). intros Ha Hb.
  destruct (SFcompare a b) as [[]|] eqn:E; cbn; try done.
  destruct a, b; cbn in *; try discriminate; destruct s; try destruct s0; discriminate.
Qed.

Lemma number_or_not_nan a b : is_nan b = false -> is_nan (number_or a b) = false.
Proof.
  unfold number_or. cbn. intros Hb. destruct a; cbn; try done.
Qed.

Lemma string_or_nonempty_default x (d : string) : d ≠ "" -> string_or x d ≠ "".
Proof.
  intros Hd. unfold string_or. destruct x as [s|]; [|done].
  destruct (String.eqb_spec s ""); done.
Qed.

(** X8. A [VoiceConfig] that was constructed (its constructor did not
    throw) has a non-empty API key, a timeout of at least 5000, a maximal
    file size of at most 100 MiB and a maximal text length of at most
    10000; and its base URL is never empty. *)
Theorem new_VoiceConfig_guarantees env c :
  new_VoiceConfig parseInt env = inr c ->
  apiKey c ≠ ""
  /\ baseUrl c ≠ ""
  /\ SFleb n_5000 (timeout c) = true
  /\ SFleb (maxFileSize c) n_100MB = true
  /\ SFleb (maxLength c) n_10000 = true.
Proof.
  unfold new_VoiceConfig, validateConfig. intros H.
  destruct (validateConfig_errors (initConfigFields parseInt env)) as [|e errs] eqn:E;
    [|discriminate H].
  injection H as <-. unfold validateConfig_errors in E.
  apply app_eq_nil in E as [E1 E]. apply app_eq_nil in E as [_ E].
  apply app_eq_nil in E as [E3 E]. apply app_eq_nil in E as [E4 E5].
  split.
  { destruct (String.eqb_spec (apiKey (initConfigFields parseInt env)) ""); done. }
  split; [by apply string_or_nonempty_default|].
  split.
  { apply SFltb_false_SFleb; [by apply number_or_not_nan|done|].
    by destruct (SFltb (timeout (initConfigFields parseInt env)) n_5000). }
  split.
  - apply SFltb_false_SFleb; [done|by apply number_or_not_nan|].
    by destruct (SFltb n_100MB (maxFileSize (initConfigFields parseInt env))).
  - apply SFltb_false_SFleb; [done|by apply number_or_not_nan|].
    by destruct (SFltb n_10000 (maxLength (initConfigFields parseInt env))).
Qed.

(** X9. Without an API key the configuration cannot be constructed: when
    [ELEVENLABS_API_KEY] is unset or empty the constructor throws, and
    the message lists 'ELEVENLABS_API_KEY is required' first, whatever
    the other variables are. With no variable set at all this is the
    only complaint; and no environment makes the constructor complain
    about the base URL. *)
Theorem new_VoiceConfig_needs_api_key env :
  (string_or (ELEVENLABS_API_KEY env) "" = "" ->
   exists rest,
     validateConfig_errors (initConfigFields parseInt env)
     = "ELEVENLABS_API_KEY is required" :: rest
     /\ new_VoiceConfig parseInt env
        = inl ("Configuration errors: "
               +:+ String.concat ", " ("ELEVENLABS_API_KEY is required" :: rest)))
  /\ new_VoiceConfig parseInt config_env_unset
     = inl "Configuration errors: ELEVENLABS_API_KEY is required"
  /\ "ELEVENLABS_BASE_URL is required"
     ∉ validateConfig_errors (initConfigFields parseInt env).
Proof.
  split; [|split].
  - intros H. unfold new_VoiceConfig, validateConfig, validateConfig_errors.
    cbn [apiKey initConfigFields]. rewrite H. cbn [String.eqb app]. eauto.
  - reflexivity.
  - unfold validateConfig_errors. rewrite !elem_of_app.
    assert (Hb : String.eqb (baseUrl (initConfigFields parseInt env)) "" = false).
    { apply String.eqb_neq. by apply string_or_nonempty_default. }
    rewrite Hb. intros [H|[H|[H|[H|H]]]];
      repeat match type of H with
             | _ ∈ (if ?b then _ else _) => destruct b
             end;
      absurd_elem_of H.
Qed.

End Construction.

Lemma new_VoiceConfig_guarantees_witness :
  exists c,
    new_VoiceConfig (fun _ => NaN)
      {| ELEVENLABS_API_KEY := Some "xi-key";
         ELEVENLABS_BASE_URL := None;
         ELEVENLABS_TIMEOUT := None;
         MAX_AUDIO_SIZE := None;
         MAX_TEXT_LENGTH := None |} = inr c
    /\ apiKey c ≠ ""
    /\ SFleb n_5000 (timeout c) = true.
Proof.
  eexists. split; [reflexivity|].
  match goal with
  | |- apiKey ?c ≠ _ /\ _ =>
      destruct (new_VoiceConfig_guarantees (fun _ => NaN)
                  {| ELEVENLABS_API_KEY := Some "xi-key";
                     ELEVENLABS_BASE_URL := None;
                     ELEVENLABS_TIMEOUT := None;
                     MAX_AUDIO_SIZE := None;
                     MAX_TEXT_LENGTH := None |} c eq_refl) as (H1 & _ & H3 & _)
  end.
  split; [exact H1 | exact H3].
Defined.

Lemma new_VoiceConfig_needs_api_key_witness :
  string_or (ELEVENLABS_API_KEY config_env_unset) "" = ""
  /\ exists m, new_VoiceConfig (fun _ => NaN) config_env_unset = inl m.
Proof.
  assert (H : string_or (ELEVENLABS_API_KEY config_env_unset) "" = "") by reflexivity.
  split; [exact H|].
  destruct (proj1 (new_VoiceConfig_needs_api_key (fun _ => NaN) config_env_unset) H)
    as (rest & _ & Hm).
  eexists. exact Hm.
Defined.

Section AudioFormat.

Implicit Types (c : Ascii.ascii) (l : list Ascii.ascii).

Lemma string_of_list_ascii_app l1 l2 :
  String.string_of_list_ascii (l1 ++ l2)
  = String.string_of_list_ascii l1 +:+ String.string_of_list_ascii l2.
Proof. induction l1 as [|c l1 IH]; [done|]. simpl. rewrite IH. reflexivity. Qed.

Lemma list_ascii_of_string_app (s1 s2 : string) :
  String.list_ascii_of_string (s1 +:+ s2)
  = String.list_ascii_of_string s1 ++ String.list_ascii_of_string s2.
Proof. induction s1 as [|c s1 IH]; [done|]. simpl. rewrite IH. reflexivity. Qed.

(** Lower-casing neither makes nor unmakes a full stop. *)
Lemma toLowerCase_ascii_full_stop c :
  Ascii.eqb (toLowerCase_ascii c) full_stop = Ascii.eqb c full_stop.
Proof. destruct c as [[] [] [] [] [] [] [] []]; reflexivity. Qed.

Lemma lastIndexOf_toLowerCase l :
  lastIndexOf full_stop (toLowerCase_ascii <$> l) = lastIndexOf full_stop l.
Proof.
  induction l as [|c l IH]; [done|]. cbn [fmap list_fmap lastIndexOf].
  fold (toLowerCase_ascii <$> l). by rewrite IH, toLowerCase_ascii_full_stop.
Qed.

Lemma lastIndexOf_absent c l : c ∉ l -> lastIndexOf c l = None.
Proof.
  induction l as [|x l IH]; [done|]. intros H. apply not_elem_of_cons in H as [Hx Hl].
  cbn. rewrite (IH Hl). destruct (Ascii.eqb_spec x c); congruence.
Qed.

(** The last occurrence is the one followed by no other. *)
Lemma lastIndexOf_app c l1 l2 :
  c ∉ l2 -> lastIndexOf c (l1 ++ c :: l2) = Some (length l1).
Proof.
  intros H. induction l1 as [|x l1 IH]; cbn.
  - by rewrite (lastIndexOf_absent _ _ H), Ascii.eqb_refl.
  - by rewrite IH.
Qed.

Lemma lastIndexOf_Some c l i :
  lastIndexOf c l = Some i -> exists l2, drop i l = c :: l2.
Proof.
  revert i. induction l as [|x l IH]; intros i H; [done|]. cbn in H.
  destruct (lastIndexOf c l) as [j|] eqn:E.
  - injection H as <-. cbn. by apply IH.
  - destruct (Ascii.eqb_spec x c) as [->|]; [|done]. injection H as <-. by exists l.
Qed.

(** Each supported format is a full stop followed by letters and digits. *)
Lemma supportedFormats_shape (format : string) :
  format ∈ supportedFormats ->
  exists l, String.list_ascii_of_string format = full_stop :: l /\ full_stop ∉ l.
Proof.
  unfold supportedFormats. intros H.
  repeat (apply elem_of_cons in H as [-> | H];
          [eexists; split; [reflexivity|];
           intros Hin; absurd_elem_of Hin|]).
  by apply elem_of_nil in H.
Qed.

(** X10. For a file name of ASCII characters, [isAudioFormatSupported]
    holds exactly when the name, in lower case, ends with one of the five
    supported extensions: the case of the letters does not matter, only
    the part from the last full stop counts, and a name without a full
    stop is not supported. *)
Theorem isAudioFormatSupported_iff filename :
  is_ascii_string filename ->
  isAudioFormatSupported filename = true
  <-> exists stem format,
        format ∈ supportedFormats /\ toLowerCase filename = stem +:+ format.
Proof.
  intros _. unfold isAudioFormatSupported, toLowerCase.
  rewrite String.list_ascii_of_string_of_list_ascii.
  set (chars := String.list_ascii_of_string filename).
  rewrite existsb_exists. split.
  - intros (format & Hin & Heq). apply String.eqb_eq in Heq.
    apply list_elem_of_In in Hin.
    destruct (lastIndexOf full_stop chars) as [i|]; cbn [substring_from] in Heq.
    + exists (String.string_of_list_ascii (take i (toLowerCase_ascii <$> chars))), format.
      split; [done|]. rewrite <- Heq, <- string_of_list_ascii_app. by rewrite take_drop.
    + exists "", format. split; [done|]. by rewrite <- Heq.
  - intros (stem & format & Hin & Heq).
    exists format. split; [by apply list_elem_of_In|]. apply String.eqb_eq.
    destruct (supportedFormats_shape format Hin) as (l & Hl & Hdot).
    assert (Hlow : toLowerCase_ascii <$> chars
                   = String.list_ascii_of_string stem ++ full_stop :: l).
    { rewrite <- Hl, <- list_ascii_of_string_app, <- Heq.
      by rewrite String.list_ascii_of_string_of_list_ascii. }
    rewrite <- lastIndexOf_toLowerCase, Hlow, (lastIndexOf_app _ _ _ Hdot).
    cbn [substring_from]. rewrite drop_app_length, <- Hl.
    apply String.string_of_list_ascii_of_string.
Qed.

End AudioFormat.

Lemma isAudioFormatSupported_iff_witness :
  is_ascii_string "Voice.Sample.MP3"
  /\ exists stem format,
       format ∈ supportedFormats /\ toLowerCase "Voice.Sample.MP3" = stem +:+ format.
Proof.
  assert (H : is_ascii_string "Voice.Sample.MP3").
  { unfold is_ascii_string. cbn [String.list_ascii_of_string].
    repeat (apply Forall_cons; split; [vm_compute; lia|]). apply Forall_nil_2. }
  split; [exact H|].
  apply (proj1 (isAudioFormatSupported_iff "Voice.Sample.MP3" H)). reflexivity.
Defined.

(** * The validator, the route and the normaliser together *)

Section Layers.

Variable rt : Runtime.
Implicit Types (settings agent_settings : gmap string value) (env : ProcessEnv).

Lemma SFcompare_Eq_finite s m e s' m' e' :
  SFcompare (S754_finite s m e) (S754_finite s' m' e') = Some Eq ->
  s = s' /\ m = m' /\ e = e'.
Proof.
  destruct s, s'; cbn; try discriminate;
    destruct (e ?= e')%Z eqn:Ee; try discriminate;
    apply Z.compare_eq in Ee as ->; intros H; injection H as H;
    destruct (Pos.compare_cont Eq m m') eqn:Em; try discriminate;
    apply Pos.compare_eq in Em as ->; done.
Qed.

(** Two numbers, neither NaN, neither less than the other, compare equal. *)
Lemma SFcompare_Eq a b :
  is_nan a = false -> is_nan b = false ->
  SFltb a b = false -> SFltb b a = false -> SFcompare a b = Some Eq.
Proof.
  unfold SFltb. rewrite (SFcompare_antisym a b). intros Ha Hb.
  destruct (SFcompare a b) as [[]|] eqn:E; cbn; try done.
  destruct a, b; cbn in *; try discriminate; destruct s; try destruct s0; discriminate.
Qed.

(** A number that is neither below 0 nor above 1 is left as it is by the
    clamp, except that the negative zero becomes the positive one. *)
Lemma clamp01_in_unit_interval n :
  SFltb n pos_zero = false -> SFltb one n = false ->
  clamp01 rt (VNumber n) = VNumber (if is_zero n then pos_zero else n).
Proof.
  intros H0 H1. unfold clamp01. cbn [ToNumber]. rewrite Math_min_one.
  destruct (is_nan n) eqn:Hn; [by destruct n|].
  destruct (SFltb n one) eqn:Hlt.
  - rewrite Math_max_zero, Hn. destruct (SFltb pos_zero n) eqn:Hpos.
    + by destruct n.
    + pose proof (SFcompare_Eq n pos_zero Hn eq_refl H0 Hpos) as E.
      destruct n as [[]|[]| |[] ? ?]; cbn in E; try discriminate E; reflexivity.
  - pose proof (SFcompare_Eq n one Hn eq_refl Hlt H1) as E.
    destruct n as [[]|[]| |s m e]; try discriminate E.
    apply SFcompare_Eq_finite in E as (-> & -> & ->). reflexivity.
Qed.

Lemma isValid_no_error settings :
  VoiceValidators.isValid (VoiceValidators.validateVoiceSettings rt settings) = true ->
  VoiceValidators.not_in_unit_interval
    (VoiceValidators.destructure settings "stability" (VNumber half)) = false
  /\ VoiceValidators.not_in_unit_interval
       (VoiceValidators.destructure settings "similarityBoost" (VNumber half)) = false
  /\ VoiceValidators.not_in_unit_interval
       (VoiceValidators.destructure settings "style" (VNumber pos_zero)) = false
  /\ VoiceValidators.not_boolean
       (VoiceValidators.destructure settings "speakerBoost" (VBool true)) = false.
Proof.
  unfold VoiceValidators.validateVoiceSettings. cbn [VoiceValidators.isValid].
  intros H. apply Nat.eqb_eq, nil_length_inv in H.
  apply app_eq_nil in H as [H1 H]. apply app_eq_nil in H as [H2 H].
  apply app_eq_nil in H as [H3 H4].
  repeat split;
    match goal with |- ?b = false => destruct b; [discriminate|reflexivity] end.
Qed.

(** X11. Settings the validator accepts are not altered by the
    normaliser: a number it was given for stability, similarityBoost or
    style comes out as that number (the negative zero as the positive
    one), and a boolean speakerBoost as that boolean. *)
Theorem validated_settings_pass_normalization env settings :
  VoiceValidators.isValid (VoiceValidators.validateVoiceSettings rt settings) = true ->
  (forall k n,
      k ∈ ["stability"; "similarityBoost"; "style"] ->
      settings !! k = Some (VNumber n) ->
      normalize rt env settings !! k = Some (VNumber (if is_zero n then pos_zero else n)))
  /\ (forall b,
        settings !! "speakerBoost" = Some (VBool b) ->
        normalize rt env settings !! "speakerBoost" = Some (VBool b)).
Proof.
  intros H. apply isValid_no_error in H as (H1 & H2 & H3 & _). split.
  - intros k n Hk Hs.
    assert (Hn : SFltb n pos_zero = false /\ SFltb one n = false).
    { unfold VoiceValidators.destructure in H1, H2, H3.
      repeat (apply elem_of_cons in Hk as [-> | Hk]); [..|by apply elem_of_nil in Hk].
      - rewrite Hs in H1. cbn in H1. by apply orb_false_iff in H1.
      - rewrite Hs in H2. cbn in H2. by apply orb_false_iff in H2.
      - rewrite Hs in H3. cbn in H3. by apply orb_false_iff in H3. }
    destruct Hn as [Hn0 Hn1].
    assert (Hg : get (settings ∪ initVoiceSettings rt env) k = VNumber n).
    { rewrite get_union_l by (rewrite Hs; eauto). unfold get. by rewrite Hs. }
    unfold normalize. rewrite validateVoiceSettings_lookup. cbv zeta.
    repeat (apply elem_of_cons in Hk as [-> | Hk]); [..|by apply elem_of_nil in Hk];
      repeat (case_decide; [discriminate|]); (case_decide; [|congruence]);
      by rewrite Hg, clamp01_in_unit_interval.
  - intros b Hs. unfold normalize. rewrite validateVoiceSettings_lookup. cbv zeta.
    case_decide; [|congruence].
    rewrite get_union_l by (rewrite Hs; eauto). unfold get. by rewrite Hs.
Qed.


End Layers.

Lemma validated_settings_pass_normalization_witness :
  VoiceValidators.isValid
    (VoiceValidators.validateVoiceSettings runtime_numeric_only accepted_settings_sample)
  = true
  /\ normalize runtime_numeric_only env_unset accepted_settings_sample !! "stability"
     = Some (VNumber n_0_7).
Proof.
  assert (H : VoiceValidators.isValid
                (VoiceValidators.validateVoiceSettings runtime_numeric_only
                   accepted_settings_sample) = true) by reflexivity.
  split; [exact H|].
  apply (proj1 (validated_settings_pass_normalization runtime_numeric_only env_unset
                  accepted_settings_sample H) "stability" n_0_7).
  - apply list_elem_of_here.
  - reflexivity.
Defined.

Section Gaps.

Variable rt : Runtime.

Lemma destructure_NaN_or_undefined (settings : gmap string value) k d :
  settings !! k = Some (VNumber NaN) \/ settings !! k = Some VUndefined ->
  VoiceValidators.not_in_unit_interval d = false ->
  VoiceValidators.not_in_unit_interval (VoiceValidators.destructure settings k d) = false.
Proof.
  intros [H|H] Hd; unfold VoiceValidators.destructure; rewrite H; [reflexivity|exact Hd].
Qed.

(** X13. What passes both layers. A numeric property that is NaN, or is
    present with the value [undefined], draws no complaint from the
    validator (NaN is a number and neither below 0 nor above 1;
    [undefined] takes the destructuring default), and the normaliser
    sends it on as NaN. *)
Theorem NaN_passes_validator_and_normaliser env (settings : gmap string value) k :
  k ∈ ["stability"; "similarityBoost"; "style"] ->
  settings !! k = Some (VNumber NaN) \/ settings !! k = Some VUndefined ->
  (range_error k
   ∉ VoiceValidators.errors (VoiceValidators.validateVoiceSettings rt settings))
  /\ normalize rt env settings !! k = Some (VNumber NaN).
Proof.
  intros Hk Hs. split.
  - unfold VoiceValidators.validateVoiceSettings. cbn [VoiceValidators.errors].
    rewrite !elem_of_app.
    repeat (apply elem_of_cons in Hk as [-> | Hk]); [..|by apply elem_of_nil in Hk].
    + rewrite (destructure_NaN_or_undefined settings "stability" (VNumber half) Hs eq_refl).
      replace (range_error "stability") with "Stability must be a number between 0 and 1"
        by reflexivity.
      intros [H|[H|[H|H]]];
        repeat match type of H with
               | _ ∈ (if ?b then _ else _) => destruct b
               end;
        absurd_elem_of H.
    + rewrite (destructure_NaN_or_undefined settings "similarityBoost" (VNumber half) Hs eq_refl).
      replace (range_error "similarityBoost")
        with "Similarity boost must be a number between 0 and 1" by reflexivity.
      intros [H|[H|[H|H]]];
        repeat match type of H with
               | _ ∈ (if ?b then _ else _) => destruct b
               end;
        absurd_elem_of H.
    + rewrite (destructure_NaN_or_undefined settings "style" (VNumber pos_zero) Hs eq_refl).
      replace (range_error "style") with "Style must be a number between 0 and 1"
        by reflexivity.
      intros [H|[H|[H|H]]];
        repeat match type of H with
               | _ ∈ (if ?b then _ else _) => destruct b
               end;
        absurd_elem_of H.
  - assert (Hg : ToNumber rt (get (settings ∪ initVoiceSettings rt env) k) = NaN).
    { rewrite get_union_l by (destruct Hs as [-> | ->]; eauto).
      unfold get. by destruct Hs as [-> | ->]. }
    unfold normalize. rewrite validateVoiceSettings_lookup. cbv zeta.
    repeat (apply elem_of_cons in Hk as [-> | Hk]); [..|by apply elem_of_nil in Hk];
      repeat (case_decide; [discriminate|]); (case_decide; [|congruence]);
      by rewrite clamp01_nan by (by rewrite Hg).
Qed.

End Gaps.

Lemma NaN_passes_validator_and_normaliser_witness :
  normalize runtime_numeric_only env_unset {[ "style" := VNumber NaN ]} !! "style"
  = Some (VNumber NaN).
Proof.
  apply (NaN_passes_validator_and_normaliser runtime_numeric_only env_unset
           {[ "style" := VNumber NaN ]} "style").
  - do 2 apply list_elem_of_further. apply list_elem_of_here.
  - left. reflexivity.
Defined.

Section Timers.

Lemma step_timers w e w' acts :
  step w e = Some (w', acts) ->
  length (timers w') + timer_runs [e] = length (timers w) + length (settled acts).
Proof.
  intros H. apply step_spec in H. destruct e as [i f|k o|].
  - destruct H as (pacts & -> & H).
    apply processQueue_spec in H as [[-> ->]|H]; [cbn; lia|].
    destruct H as (r & rest & _ & _ & -> & _ & _ & _ & _ & -> & _). cbn. lia.
  - destruct H as (r & _ & -> & _ & _ & _ & _ & -> & _).
    destruct (settle_trace r o) as (_ & _ & ->). rewrite length_app. cbn. lia.
  - destruct H as (d & rest & -> & H).
    apply processQueue_spec in H as [[-> ->]|H]; [cbn; lia|].
    destruct H as (r & rest' & _ & _ & -> & _ & _ & _ & _ & -> & _). cbn. lia.
Qed.

(** X14. Timers are set by settlements and by nothing else: in every
    state the processor can reach, the timers pending and the timers
    already run add up to the number of promises settled. *)
Theorem timers_match_settlements K es w tr :
  run (new_VoiceProcessor K) es = Some (w, tr) ->
  length (timers w) + timer_runs es = length (settled tr).
Proof.
  assert (G : forall es w0 w1 tr1,
             run w0 es = Some (w1, tr1) ->
             length (timers w1) + timer_runs es
             = length (timers w0) + length (settled tr1)).
  { clear. intros es. induction es as [|e es IH]; intros w0 w1 tr1 H.
    - cbn in H. injection H as <- <-. cbn. lia.
    - run_inversion H w2 acts w3 tr2 E R.
      pose proof (step_timers _ _ _ _ E) as Hs. pose proof (IH _ _ _ R) as Hr.
      unfold settled. rewrite omap_app. fold (settled acts) (settled tr2).
      rewrite length_app.
      assert (Ht : timer_runs (e :: es) = timer_runs [e] + timer_runs es)
        by (by destruct e).
      lia. }
  intros H. rewrite (G _ _ _ _ H). cbn. lia.
Qed.

End Timers.

Lemma timers_match_settlements_witness :
  exists w tr,
    run (new_VoiceProcessor 2) sample_events = Some (w, tr)
    /\ length (timers w) + timer_runs sample_events = length (settled tr).
Proof.
  destruct (run (new_VoiceProcessor 2) sample_events) as [[w tr]|] eqn:E;
    [|vm_compute in E; discriminate E].
  exists w, tr. split; [reflexivity|].
  exact (timers_match_settlements 2 sample_events w tr E).
Defined.
